(** * Errand scheduler: sequencer and timeline builders

    A shallow embedding of the scheduling core of the errand planner:

    - [calculateOptimalRoute] (Map component): splits the tasks into
      fixed-deadline and flexible ones, sorts each group and concatenates;
    - [Forward.createTimeAwareSchedule] and [Forward.statusIcon]: the
      forward-accumulating timeline and its lateness classification;
    - [Backward.createTimeAwareSchedule] and [Backward.statusIcon]: the
      backward-from-deadline timeline and its classification.

    JavaScript values are modelled as follows.  A [Date] is its time value
    in milliseconds, [None] standing for an Invalid Date (NaN); time values
    are taken inside the range where the Date constructor keeps an integer
    unchanged.  Coordinates and distances are rationals.  The two library
    functions the code calls, Date parsing of a string and the spherical
    distance of the maps library, are parameters of the development. *)

From Stdlib Require Import List ZArith QArith Qround Qabs String Bool Lia.
From Stdlib Require Import Permutation Sorted.
Import ListNotations.

Set Implicit Arguments.

(* ================================================================== *)
(** ** JavaScript runtime pieces *)
(* ================================================================== *)

Module Js.

(** A JavaScript number as far as a sort comparator can return one. *)
Inductive number : Type :=
| NaN
| Num (q : Q).

(** A Date object: its time value in milliseconds since the epoch, or
    [None] for an Invalid Date, whose [getTime()] is NaN. *)
Definition Date : Type := option Z.

(** [new Date(ms)] for a millisecond count that may be NaN. *)
Definition newDate (ms : option Z) : Date := ms.

(** [d.getTime()]. *)
Definition getTime (d : Date) : option Z := d.

(** [x + y] on numbers that may be NaN. *)
Definition add (x y : option Z) : option Z :=
  match x, y with
  | Some a, Some b => Some (a + b)%Z
  | _, _ => None
  end.

(** [x - y] on numbers that may be NaN. *)
Definition sub (x y : option Z) : option Z :=
  match x, y with
  | Some a, Some b => Some (a - b)%Z
  | _, _ => None
  end.

(** [a - b] on two Dates, as the deadline comparator computes it. *)
Definition dateDiff (a b : Date) : number :=
  match sub (getTime a) (getTime b) with
  | Some d => Num (inject_Z d)
  | None => NaN
  end.

(** [a > b] on two Dates: false as soon as one side is NaN. *)
Definition dateGt (a b : Date) : bool :=
  match getTime a, getTime b with
  | Some x, Some y => (y <? x)%Z
  | _, _ => false
  end.

(** [n / d] for a number [n] that may be NaN and a non-zero constant. *)
Definition quot (n : number) (d : Q) : number :=
  match n with
  | NaN => NaN
  | Num q => Num (q / d)
  end.

(** [n < c]: false when [n] is NaN. *)
Definition lt (n : number) (c : Q) : bool :=
  match n with
  | NaN => false
  | Num q => negb (Qle_bool c q)
  end.

(** [Math.ceil(v / 60)] for a whole number of seconds. *)
Definition ceilDiv60 (v : Z) : Z := Qceiling (inject_Z v / 60).

(** Exceptions the modelled code can raise. *)
Inductive error : Type :=
| TypeError.

Inductive result (A : Type) : Type :=
| Ok (a : A)
| Throw (e : error).

Arguments Ok {A} a.
Arguments Throw {A} e.

(** *** [Array.prototype.sort]

    The sort is stable.  It is modelled as an insertion sort that takes
    the elements in array order and moves each one past the elements it
    sorts strictly after.  The comparator's NaN counts as zero.  For a
    consistent comparator the language fixes the result, the one ordered
    rearrangement that keeps tied elements in their order, and the model
    returns it ([sort_unique] below).  For an inconsistent one, such as a
    comparator that returns NaN on some pairs only, the order is left to
    the engine, and the model need not agree with a given engine; the
    results below either assume a consistent comparator or use only that
    the sort rearranges, except the counterexample to the deadline order,
    whose input V8 leaves in place just as the model does (every
    comparison made there involves the missing deadline and is NaN, so
    the array counts as sorted). *)
Section Sort.
Context {A : Type}.
Variable comparefn : A -> A -> number.

Definition SortCompare (x y : A) : Q :=
  match comparefn x y with
  | NaN => 0
  | Num v => v
  end.

(** [x] sorts strictly after [y]. *)
Definition after (x y : A) : bool := negb (Qle_bool (SortCompare x y) 0).

(** Neither of [x] and [y] sorts strictly after the other. *)
Definition tied (x y : A) : bool := negb (after x y) && negb (after y x).

Fixpoint insert (x : A) (l : list A) : list A :=
  match l with
  | [] => [x]
  | y :: l' => if after x y then y :: insert x l' else x :: y :: l'
  end.

Fixpoint sort (l : list A) : list A :=
  match l with
  | [] => []
  | x :: l' => insert x (sort l')
  end.
End Sort.

End Js.

(* ================================================================== *)
(** ** Data model *)
(* ================================================================== *)

(** The [durationMinutes] field of a task: missing, [null] or a number of
    minutes. *)
Inductive Duration : Type :=
| DurAbsent
| DurNull
| DurNum (m : Z).

(** The [mustArriveBy] field of a task: missing, [null] or an ISO 8601
    string. *)
Inductive Deadline : Type :=
| ByAbsent
| ByNull
| ByIso (s : string).

(** [new google.maps.LatLng(lat, lng)], also the shape of [userLocation]. *)
Record LatLng : Type := mkLatLng { latOf : Q; lngOf : Q }.

Module Task.
Record t : Type := mk {
  id : string;
  title : string;
  address : string;
  lat : Q;
  lng : Q;
  durationMinutes : Duration;
  mustArriveBy : Deadline;
  fixedTime : bool
}.
End Task.

(** A leg of the directions result; [value] is [leg.duration.value], the
    travel time in seconds. *)
Record Leg : Type := mkLeg { value : Z }.

Record Route : Type := mkRoute { legs : list Leg }.

(** Truthiness of [task.mustArriveBy]. *)
Definition truthy (d : Deadline) : bool :=
  match d with
  | ByAbsent | ByNull => false
  | ByIso s => negb (String.eqb s EmptyString)
  end.

(** [task.durationMinutes * 60 * 1000]: a missing field gives NaN, [null]
    counts as zero. *)
Definition durationMs (d : Duration) : option Z :=
  match d with
  | DurAbsent => None
  | DurNull => Some 0%Z
  | DurNum m => Some (m * 60 * 1000)%Z
  end.

(** The task with its [durationMinutes] field removed. *)
Definition withoutDuration (t : Task.t) : Task.t :=
  Task.mk (Task.id t) (Task.title t) (Task.address t) (Task.lat t)
          (Task.lng t) DurAbsent (Task.mustArriveBy t) (Task.fixedTime t).

(** The task list in which every zero duration is a missing one. *)
Definition zeroAsMissing (t : Task.t) : Task.t :=
  match Task.durationMinutes t with
  | DurNum 0 => withoutDuration t
  | _ => t
  end.

(** [task.durationMinutes || 30]. *)
Definition durationOr30 (d : Duration) : Z :=
  match d with
  | DurAbsent | DurNull => 30%Z
  | DurNum m => if (m =? 0)%Z then 30%Z else m
  end.

(* ================================================================== *)
(** ** The sequencer (Map component) *)
(* ================================================================== *)

Section Sequencer.

(** [Date.parse] on a string: [None] when the string is not a date. *)
Variable parse : string -> option Z.

(** [google.maps.geometry.spherical.computeDistanceBetween]. *)
Variable computeDistanceBetween : LatLng -> LatLng -> Q.

(** [new Date(task.mustArriveBy)]. *)
Definition dateOf (d : Deadline) : Js.Date :=
  match d with
  | ByAbsent => None
  | ByNull => Js.newDate (Some 0%Z)
  | ByIso s => Js.newDate (parse s)
  end.

Definition distanceBetween (lat1 lng1 lat2 lng2 : Q) : Q :=
  computeDistanceBetween (mkLatLng lat1 lng1) (mkLatLng lat2 lng2).

(** The comparator of the fixed tasks:
    [new Date(a.mustArriveBy) - new Date(b.mustArriveBy)]. *)
Definition byDeadline (a b : Task.t) : Js.number :=
  Js.dateDiff (dateOf (Task.mustArriveBy a)) (dateOf (Task.mustArriveBy b)).

(** The comparator of the flexible tasks: difference of the two
    distances to the reference point. *)
Definition byDistance (referencePoint : LatLng) (a b : Task.t) : Js.number :=
  Js.Num
    (distanceBetween (latOf referencePoint) (lngOf referencePoint)
                     (Task.lat a) (Task.lng a)
     - distanceBetween (latOf referencePoint) (lngOf referencePoint)
                       (Task.lat b) (Task.lng b)).

Definition fixedTasks (tasks : list Task.t) : list Task.t :=
  Js.sort byDeadline (filter Task.fixedTime tasks).

Definition flexibleTasks (tasks : list Task.t) : list Task.t :=
  filter (fun t => negb (Task.fixedTime t)) tasks.

(** The last fixed task when there is one, the user's location otherwise. *)
Definition referencePoint (tasks : list Task.t) (userLocation : LatLng)
  : LatLng :=
  match fixedTasks tasks with
  | [] => mkLatLng (latOf userLocation) (lngOf userLocation)
  | t0 :: rest =>
      let r := last rest t0 in mkLatLng (Task.lat r) (Task.lng r)
  end.

Definition orderedFlexible (tasks : list Task.t) (userLocation : LatLng)
  : list Task.t :=
  if (0 <? List.length (flexibleTasks tasks))%nat
  then Js.sort (byDistance (referencePoint tasks userLocation))
               (flexibleTasks tasks)
  else flexibleTasks tasks.

(** The [finalOrder] that [calculateOptimalRoute] hands to the route
    drawing. *)
Definition calculateOptimalRoute (tasks : list Task.t)
           (userLocation : LatLng) : list Task.t :=
  fixedTasks tasks ++ orderedFlexible tasks userLocation.

(** *** Orders used to state the results *)

(** [a]'s deadline is a valid time no later than [b]'s. *)
Definition deadlineLe (a b : Task.t) : Prop :=
  match dateOf (Task.mustArriveBy a), dateOf (Task.mustArriveBy b) with
  | Some x, Some y => (x <= y)%Z
  | _, _ => False
  end.

(** [a]'s deadline is not later than [b]'s as far as both are valid times;
    a task without a valid deadline is never out of order. *)
Definition notDueAfter (a b : Task.t) : Prop :=
  match dateOf (Task.mustArriveBy a), dateOf (Task.mustArriveBy b) with
  | Some x, Some y => (x <= y)%Z
  | _, _ => True
  end.

(** [a] is no farther from [p] than [b]. *)
Definition distanceLe (p : LatLng) (a b : Task.t) : Prop :=
  computeDistanceBetween p (mkLatLng (Task.lat a) (Task.lng a))
  <= computeDistanceBetween p (mkLatLng (Task.lat b) (Task.lng b)).

(** *** Readings of the specification the code is compared with *)

(** A task is malformed when it is flagged fixed without a deadline that
    can be used: missing, null, empty or not a date. *)
Definition malformed (t : Task.t) : bool :=
  Task.fixedTime t
  && negb (truthy (Task.mustArriveBy t)
           && match dateOf (Task.mustArriveBy t) with
              | Some _ => true
              | None => false
              end).

(** The task as the specification wants a malformed one handled: as a
    flexible task. *)
Definition treatedAsFlexible (t : Task.t) : Task.t :=
  if malformed t
  then Task.mk (Task.id t) (Task.title t) (Task.address t) (Task.lat t)
               (Task.lng t) (Task.durationMinutes t) (Task.mustArriveBy t)
               false
  else t.

(** The anchor as the specification words it: the last fixed stop of the
    route when there is one, the origin otherwise. *)
Definition anchorOf (fixed : list Task.t) (originPoint : LatLng) : LatLng :=
  match rev fixed with
  | [] => originPoint
  | r :: _ => mkLatLng (Task.lat r) (Task.lng r)
  end.

(** The chained nearest-neighbour walk the design decides against: the
    nearest remaining task is visited next and becomes the new reference
    point.  [pickNearest] returns the task of [best :: l] nearest to [p],
    the first one on ties, and the others in their order. *)
Fixpoint pickNearest (p : LatLng) (best : Task.t) (l : list Task.t)
  : Task.t * list Task.t :=
  match l with
  | [] => (best, [])
  | y :: l' =>
      if Qle_bool (computeDistanceBetween p (mkLatLng (Task.lat best) (Task.lng best)))
                  (computeDistanceBetween p (mkLatLng (Task.lat y) (Task.lng y)))
      then let (b, r) := pickNearest p best l' in (b, y :: r)
      else let (b, r) := pickNearest p y l' in (b, best :: r)
  end.

Fixpoint nearestNeighbourChain (fuel : nat) (p : LatLng) (l : list Task.t)
  : list Task.t :=
  match fuel, l with
  | S fuel', x :: l' =>
      let (b, r) := pickNearest p x l' in
      b :: nearestNeighbourChain fuel' (mkLatLng (Task.lat b) (Task.lng b)) r
  | _, _ => []
  end.

End Sequencer.

(* ================================================================== *)
(** ** Status shown next to a stop *)
(* ================================================================== *)

(** The status prefix of a schedule line: the empty string, or the red
    LATE, yellow TIGHT or green ON TIME marker. *)
Inductive StatusIcon : Type :=
| NoIcon
| LATE
| TIGHT
| ON_TIME.

(** The classification as the specification words it, for an arrival at
    [a] and a deadline [t] in milliseconds: late after the deadline, tight
    within five minutes of it (bounds included), on time otherwise. *)
Definition statusAsSpecified (a t : Z) : StatusIcon :=
  if (t <? a)%Z then LATE
  else if (t - a <=? 5 * 60000)%Z then TIGHT
  else ON_TIME.

(** What it means for [icon] to classify an arrival at [a] against a
    deadline [t], both in milliseconds, with a five-minute threshold that
    belongs to the on-time side. *)
Definition classifies (icon : StatusIcon) (a t : Z) : Prop :=
  icon <> NoIcon
  /\ (icon = LATE <-> (t < a)%Z)
  /\ (icon = TIGHT <-> (0 <= t - a < 5 * 60000)%Z)
  /\ (icon = ON_TIME <-> (5 * 60000 <= t - a)%Z).

(* ================================================================== *)
(** ** Forward accumulation (running clock) *)
(* ================================================================== *)

Module Forward.

Record ScheduleItem : Type := mk {
  taskId : string;
  title : string;
  address : string;
  lat : Q;
  lng : Q;
  startTime : Js.Date;
  endTime : Js.Date;
  travelMinutes : Z;
  isFixed : bool;
  (** set only for a fixed task *)
  deadline : option Js.Date;
  (** set only for a fixed task *)
  isLate : option bool
}.

Section Builder.
Variable parse : string -> option Z.

(** The item pushed for [task], reached over [leg] when the clock shows
    [currentDateTime]. *)
Definition scheduleItem (task : Task.t) (leg : Leg)
           (currentDateTime : Js.Date) : ScheduleItem :=
  let travelMinutes := Js.ceilDiv60 (value leg) in
  let currentDateTime :=
    Js.newDate (Js.add (Js.getTime currentDateTime)
                       (Some (travelMinutes * 60 * 1000)%Z)) in
  let startTime := Js.newDate (Js.getTime currentDateTime) in
  let endTime :=
    Js.newDate (Js.add (Js.getTime startTime)
                       (durationMs (Task.durationMinutes task))) in
  let deadline := dateOf parse (Task.mustArriveBy task) in
  mk (Task.id task) (Task.title task) (Task.address task)
     (Task.lat task) (Task.lng task)
     startTime endTime travelMinutes (Task.fixedTime task)
     (if Task.fixedTime task then Some deadline else None)
     (if Task.fixedTime task then Some (Js.dateGt startTime deadline)
      else None).

(** [tasks.forEach((task, i) => ...)] from index [i] on: the running
    clock and the schedule built so far are threaded through; reading
    [leg.duration] of a missing leg raises a TypeError. *)
Fixpoint forEach (legs : list Leg) (tasks : list Task.t) (i : nat)
         (currentDateTime : Js.Date) (schedule : list ScheduleItem)
  : Js.result (list ScheduleItem) :=
  match tasks with
  | [] => Js.Ok schedule
  | task :: rest =>
      match nth_error legs i with
      | None => Js.Throw Js.TypeError
      | Some leg =>
          let item := scheduleItem task leg currentDateTime in
          forEach legs rest (S i) (endTime item) (schedule ++ [item])
      end
  end.

Definition createTimeAwareSchedule (tasks : list Task.t) (route : Route)
           (userLocation : LatLng) (currentTime : Js.Date)
  : Js.result (list ScheduleItem) :=
  let now := Js.newDate (Js.getTime currentTime) in
  forEach (legs route) tasks 0 (Js.newDate (Js.getTime now)) [].

(** The items of the loop as a function of the clock, the tasks and the
    legs that remain. *)
Fixpoint timeline (currentDateTime : Js.Date) (tasks : list Task.t)
         (legs : list Leg) : list ScheduleItem :=
  match tasks, legs with
  | task :: tasks', leg :: legs' =>
      let item := scheduleItem task leg currentDateTime in
      item :: timeline (endTime item) tasks' legs'
  | _, _ => []
  end.

(** The recurrence of the specification: [clockAt start tasks legs i] is
    the running clock before stop [i]; it starts at [start] and each stop
    adds the leg's travel minutes, rounded up, and the task's duration. *)
Fixpoint clockAt (start : option Z) (tasks : list Task.t) (legs : list Leg)
         (i : nat) : option Z :=
  match i with
  | O => start
  | S k =>
      match nth_error tasks k, nth_error legs k with
      | Some task, Some leg =>
          Js.add (Js.add (clockAt start tasks legs k)
                         (Some (Js.ceilDiv60 (value leg) * 60000)%Z))
                 (durationMs (Task.durationMinutes task))
      | _, _ => None
      end
  end.

(** [(s.deadline - s.startTime) / 60000]; a missing deadline gives NaN. *)
Definition minutesBeforeDeadline (s : ScheduleItem) : Js.number :=
  match deadline s with
  | Some d => Js.quot (Js.dateDiff d (startTime s)) 60000
  | None => Js.NaN
  end.

(** The status computed for one line of the schedule text. *)
Definition statusIcon (s : ScheduleItem) : StatusIcon :=
  if isFixed s then
    if match isLate s with Some b => b | None => false end then LATE
    else if Js.lt (minutesBeforeDeadline s) 5 then TIGHT
    else ON_TIME
  else NoIcon.
End Builder.

End Forward.

(* ================================================================== *)
(** ** Backward from the deadline *)
(* ================================================================== *)

Module Backward.

Definition BUFFER_MINUTES : Z := 5.

Record ScheduleItem : Type := mk {
  taskId : string;
  title : string;
  address : string;
  lat : Q;
  lng : Q;
  (** [None] is [null] *)
  departTime : option Js.Date;
  (** [None] is [null] *)
  arriveTime : option Js.Date;
  durationMinutes : Z;
  travelMinutes : Z;
  isFixed : bool;
  (** [None] is [null] *)
  deadline : option Js.Date
}.

Section Builder.
Variable parse : string -> option Z.

(** The item pushed for [task], reached over [leg]. *)
Definition scheduleItem (task : Task.t) (leg : Leg) : ScheduleItem :=
  let travelMinutes := Js.ceilDiv60 (value leg) in
  let timed := Task.fixedTime task && truthy (Task.mustArriveBy task) in
  let mustArrive := dateOf parse (Task.mustArriveBy task) in
  let arriveTime :=
    Js.newDate (Js.sub (Js.getTime mustArrive)
                       (Some (BUFFER_MINUTES * 60 * 1000)%Z)) in
  let departTime :=
    Js.newDate (Js.sub (Js.getTime arriveTime)
                       (Some (travelMinutes * 60 * 1000)%Z)) in
  mk (Task.id task) (Task.title task) (Task.address task)
     (Task.lat task) (Task.lng task)
     (if timed then Some departTime else None)
     (if timed then Some arriveTime else None)
     (durationOr30 (Task.durationMinutes task))
     travelMinutes (Task.fixedTime task)
     (if Task.fixedTime task
      then Some (dateOf parse (Task.mustArriveBy task)) else None).

(** [tasks.forEach((task, i) => ...)] from index [i] on; reading
    [leg.duration] of a missing leg raises a TypeError. *)
Fixpoint forEach (legs : list Leg) (tasks : list Task.t) (i : nat)
         (schedule : list ScheduleItem)
  : Js.result (list ScheduleItem) :=
  match tasks with
  | [] => Js.Ok schedule
  | task :: rest =>
      match nth_error legs i with
      | None => Js.Throw Js.TypeError
      | Some leg =>
          forEach legs rest (S i) (schedule ++ [scheduleItem task leg])
      end
  end.

Definition createTimeAwareSchedule (tasks : list Task.t) (route : Route)
  : Js.result (list ScheduleItem) :=
  forEach (legs route) tasks 0 [].

(** The items of the loop as a function of the tasks and the legs that
    remain. *)
Fixpoint timeline (tasks : list Task.t) (legs : list Leg)
  : list ScheduleItem :=
  match tasks, legs with
  | task :: tasks', leg :: legs' =>
      scheduleItem task leg :: timeline tasks' legs'
  | _, _ => []
  end.

(** The status computed for one line of the schedule text. *)
Definition statusIcon (s : ScheduleItem) : StatusIcon :=
  if isFixed s then
    match arriveTime s, deadline s with
    | Some a, Some d =>
        if Js.dateGt a d then LATE
        else if Js.lt (Js.quot (Js.dateDiff d a) 60000) 5 then TIGHT
        else ON_TIME
    | _, _ => NoIcon
    end
  else NoIcon.
End Builder.

End Backward.

(* ================================================================== *)
(** ** Example data *)
(* ================================================================== *)

Module Fixture.
Open Scope string_scope.

(** Stand-in for [Date.parse], defined on the three deadlines used below. *)
Definition parse (s : string) : option Z :=
  if String.eqb s "2026-02-14T08:00:00-06:00" then Some 1771077600000%Z
  else if String.eqb s "2026-02-14T08:30:00-06:00" then Some 1771079400000%Z
  else if String.eqb s "2026-02-14T09:00:00-06:00" then Some 1771081200000%Z
  else None.

(** Stand-in for the distance of the maps library: sum of the two
    coordinate differences. *)
Definition distance (p q : LatLng) : Q :=
  Qabs (latOf p - latOf q) + Qabs (lngOf p - lngOf q).

Definition origin : LatLng := mkLatLng 0 0.

Definition flexibleAt (name : string) (x : Q) : Task.t :=
  Task.mk name name "" x 0 (DurNum 30) ByNull false.

Definition fixedAt (name : string) (x : Q) (by_ : Deadline) : Task.t :=
  Task.mk name name "" x 0 (DurNum 30) by_ true.

Definition at0800 : Deadline := ByIso "2026-02-14T08:00:00-06:00".
Definition at0830 : Deadline := ByIso "2026-02-14T08:30:00-06:00".
Definition at0900 : Deadline := ByIso "2026-02-14T09:00:00-06:00".
End Fixture.


From Stdlib Require Import Ascii NArith.

(* ================================================================== *)
(** ** Further parts of the Map component *)
(* ================================================================== *)

(** [arr.slice(from, to)] and [str.slice(from, to)]: a negative index
    counts from the end, and the bounds are clamped to the length. *)
Definition sliceIndex (len k : Z) : Z :=
  if (k <? 0)%Z then Z.max (len + k) 0 else Z.min k len.

Definition slice {A : Type} (l : list A) (from to : Z) : list A :=
  let len := Z.of_nat (List.length l) in
  let a := sliceIndex len from in
  let b := sliceIndex len to in
  firstn (Z.to_nat (b - a)) (skipn (Z.to_nat a) l).

(** The request [drawFinalRoute] sends to the directions service; the
    travel mode, always driving, is left out. *)
Record DirectionsRequest : Type := mkRequest {
  origin : LatLng;
  destination : LatLng;
  (** the [location] of each waypoint; every waypoint is a stopover *)
  waypoints : list LatLng;
  optimizeWaypoints : bool
}.

Definition locationOf (t : Task.t) : LatLng :=
  mkLatLng (Task.lat t) (Task.lng t).

(** [drawFinalRoute]: nothing is requested for an empty order; otherwise
    all tasks but the last are waypoints and the last is the destination. *)
Definition drawFinalRoute (orderedTasks : list Task.t) (userLocation : LatLng)
  : option DirectionsRequest :=
  if (List.length orderedTasks =? 0)%nat then None
  else
    let waypoints := map locationOf (slice orderedTasks 0 (-1)) in
    match nth_error orderedTasks (List.length orderedTasks - 1) with
    | Some t => Some (mkRequest userLocation (locationOf t) waypoints false)
    | None => None
    end.

(** The tasks of [l] due at the time [d]. *)
Definition dueAt (parse : string -> option Z) (d : Z) (t : Task.t) : bool :=
  match dateOf parse (Task.mustArriveBy t) with
  | Some x => (x =? d)%Z
  | None => false
  end.

(** The tasks at distance [q] from [p]. *)
Definition atDistance (computeDistanceBetween : LatLng -> LatLng -> Q)
           (p : LatLng) (q : Q) (t : Task.t) : bool :=
  Qeq_bool (computeDistanceBetween p (mkLatLng (Task.lat t) (Task.lng t))) q.

(** A forward schedule is chronological from [clock] on when every stop is
    reached no earlier than [clock], left no earlier than it is reached,
    and followed by stops that are chronological from its departure on. *)
Fixpoint chronological (clock : Z) (schedule : list Forward.ScheduleItem)
  : Prop :=
  match schedule with
  | [] => True
  | s :: rest =>
      exists a e,
        Forward.startTime s = Some a
        /\ Forward.endTime s = Some e
        /\ (clock <= a <= e)%Z
        /\ chronological e rest
  end.

(* ================================================================== *)
(** ** Salvaging a JSON array from the model's reply (gemini utilities) *)
(* ================================================================== *)

(** A JavaScript string is the list of its UTF-16 code units. *)
Definition text : Type := list N.

Module Char.
Definition lbracket : N := 91.
Definition rbracket : N := 93.
Definition lbrace : N := 123.
Definition rbrace : N := 125.
Definition comma : N := 44.

(** The code units the regular expression class [\s] accepts. *)
Definition isSpace (u : N) : bool :=
  ((9 <=? u) && (u <=? 13) || (u =? 32) || (u =? 160) || (u =? 5760)
   || (8192 <=? u) && (u <=? 8202) || (u =? 8232) || (u =? 8233)
   || (u =? 8239) || (u =? 8287) || (u =? 12288) || (u =? 65279))%N.
End Char.

(** The code units of a string literal of plain characters. *)
Definition codes (s : string) : text :=
  map N_of_ascii (list_ascii_of_string s).

(** [s.indexOf(c)] for a one-unit [c], counted from [i]; -1 when absent. *)
Fixpoint indexOfFrom (c : N) (s : text) (i : Z) : Z :=
  match s with
  | [] => (-1)%Z
  | u :: rest => if (u =? c)%N then i else indexOfFrom c rest (i + 1)
  end.

Definition indexOf (c : N) (s : text) : Z := indexOfFrom c s 0.

(** [s.lastIndexOf(c)] for a one-unit [c]; [found] is the last index seen
    so far. *)
Fixpoint lastIndexOfFrom (c : N) (s : text) (i found : Z) : Z :=
  match s with
  | [] => found
  | u :: rest =>
      lastIndexOfFrom c rest (i + 1) (if (u =? c)%N then i else found)
  end.

Definition lastIndexOf (c : N) (s : text) : Z :=
  lastIndexOfFrom c s 0 (-1).

(** [extractCompleteJsonArray]: the text from the first opening bracket to
    the last closing bracket, or [null]. *)
Definition extractCompleteJsonArray (s : text) : option text :=
  let start := indexOf Char.lbracket s in
  let end_ := lastIndexOf Char.rbracket s in
  if (start =? -1)%Z || (end_ =? -1)%Z || (end_ <=? start)%Z then None
  else Some (slice s start (end_ + 1)).

(** The longest run of [\s] at the head of [s]: its length and what
    follows. *)
Fixpoint spaces (s : text) : nat * text :=
  match s with
  | u :: rest =>
      if Char.isSpace u then let (n, r) := spaces rest in (S n, r)
      else (O, s)
  | [] => (O, [])
  end.

(** A match of [\}\s*,\s*\{] at the head of [s]: its length. *)
Definition boundaryAt (s : text) : option nat :=
  match s with
  | u :: r =>
      if (u =? Char.rbrace)%N then
        let (n1, r1) := spaces r in
        match r1 with
        | v :: r2 =>
            if (v =? Char.comma)%N then
              let (n2, r3) := spaces r2 in
              match r3 with
              | w :: _ =>
                  if (w =? Char.lbrace)%N then Some (1 + n1 + 1 + n2 + 1)%nat
                  else None
              | [] => None
              end
            else None
        | [] => None
        end
      else None
  | [] => None
  end.

(** A match of [\}\s*,] at the head of [s]: its length. *)
Definition trailingAt (s : text) : option nat :=
  match s with
  | u :: r =>
      if (u =? Char.rbrace)%N then
        let (n1, r1) := spaces r in
        match r1 with
        | v :: _ => if (v =? Char.comma)%N then Some (1 + n1 + 1)%nat else None
        | [] => None
        end
      else None
  | [] => None
  end.

(** The [index] of every match that [s.matchAll] yields for a global
    pattern recognised by [matchAt]: the string is scanned from the left,
    and after a match the scan resumes behind it; [skip] counts the units
    of the current match still to pass, [i] is the index of the head. *)
Fixpoint matchAllFrom (matchAt : text -> option nat) (s : text) (i : Z)
         (skip : nat) : list Z :=
  match s with
  | [] => []
  | _ :: rest =>
      match skip with
      | S k => matchAllFrom matchAt rest (i + 1) k
      | O =>
          match matchAt s with
          | Some n => i :: matchAllFrom matchAt rest (i + 1) (n - 1)
          | None => matchAllFrom matchAt rest (i + 1) O
          end
      end
  end.

Definition matchAll (matchAt : text -> option nat) (s : text) : list Z :=
  matchAllFrom matchAt s 0 O.

(** The last element of an array, if any. *)
Definition lastOf {A : Type} (l : list A) : option A :=
  nth_error l (List.length l - 1).

(** [tryRepairTruncatedJson]: the text cut behind the last complete object
    and closed with a bracket, or [null]. *)
Definition tryRepairTruncatedJson (s : text) : option text :=
  let start := indexOf Char.lbracket s in
  if (start =? -1)%Z then None
  else
    let body := slice s (start + 1) (Z.of_nat (List.length s)) in
    let boundaryMatches := matchAll boundaryAt body in
    match lastOf boundaryMatches with
    | Some index =>
        let endOfLastComplete := (start + 1 + index + 1)%Z in
        Some (slice s 0 endOfLastComplete ++ [Char.rbracket])
    | None =>
        let trailingMatches := matchAll trailingAt body in
        match lastOf trailingMatches with
        | Some index =>
            let endOfLastComplete := (start + 1 + index + 1)%Z in
            Some (slice s 0 endOfLastComplete ++ [Char.rbracket])
        | None => None
        end
    end.

(** What both patterns have in common: a closing brace, then blanks, then
    a comma. *)
Definition braceThenComma (t : text) : Prop :=
  exists ws rest,
    t = Char.rbrace :: ws ++ Char.comma :: rest
    /\ Forall (fun u => Char.isSpace u = true) ws.


(* ================================================================== *)
(** ** Values read from the model's JSON *)
(* ================================================================== *)

(** A field of a parsed task as far as the code inspects it: missing,
    [null], a number, a string or a boolean. *)
Inductive JsVal : Type :=
| VUndefined
| VNull
| VNumber (n : Js.number)
| VString (s : string)
| VBool (b : bool).

(** [v != null]. *)
Definition notNullish (v : JsVal) : bool :=
  match v with
  | VUndefined | VNull => false
  | _ => true
  end.

(** [v === 0]. *)
Definition isZero (v : JsVal) : bool :=
  match v with
  | VNumber (Js.Num q) => Qeq_bool q 0
  | _ => false
  end.

(** Truthiness of a value. *)
Definition truthyVal (v : JsVal) : bool :=
  match v with
  | VUndefined | VNull => false
  | VNumber Js.NaN => false
  | VNumber (Js.Num q) => negb (Qeq_bool q 0)
  | VString s => negb (String.eqb s EmptyString)
  | VBool b => b
  end.

(** [Number.isNaN(n)]. *)
Definition numberIsNaN (n : Js.number) : bool :=
  match n with
  | Js.NaN => true
  | Js.Num _ => false
  end.

(** The [order] field of a planned task: missing, [null] or a number. *)
Inductive Order : Type :=
| OrdAbsent
| OrdNull
| OrdNum (n : Z).

(** [order ?? 999]. *)
Definition orderOr999 (o : Order) : Z :=
  match o with
  | OrdAbsent | OrdNull => 999%Z
  | OrdNum n => n
  end.

(** [order] as an operand of a subtraction: missing gives NaN, [null]
    counts as zero. *)
Definition orderNumber (o : Order) : option Z :=
  match o with
  | OrdAbsent => None
  | OrdNull => Some 0%Z
  | OrdNum n => Some n
  end.

(** [minutes || 0]. *)
Definition minutesOr0 (d : Duration) : Z :=
  match d with
  | DurAbsent | DurNull => 0%Z
  | DurNum m => m
  end.

(** A task as parsed from the planner's reply. *)
Module Raw.
Record t : Type := mk {
  id : string;
  title : string;
  address : string;
  lat : JsVal;
  lng : JsVal;
  order : Order;
  estimatedTravelMinutes : Duration;
  durationMinutes : Duration;
  mustArriveBy : Deadline;
  fixedTime : bool
}.
End Raw.

(** A planned task: the same fields with numbers for coordinates. *)
Module Planned.
Record t : Type := mk {
  id : string;
  title : string;
  address : string;
  lat : Js.number;
  lng : Js.number;
  order : Order;
  estimatedTravelMinutes : Duration;
  durationMinutes : Duration;
  mustArriveBy : Deadline;
  fixedTime : bool
}.
End Planned.

(** An item of the schedule [createSchedule] returns. *)
Module Slot.
Record t : Type := mk {
  taskId : string;
  title : string;
  address : string;
  lat : Js.number;
  lng : Js.number;
  startTime : Js.Date;
  endTime : Js.Date
}.
End Slot.

(* ================================================================== *)
(** ** Normalising the planner's reply ([planRouteFromText]) *)
(* ================================================================== *)

Section Normalise.

(** [parseFloat(v)] for a value that is not a number. *)
Variable parseFloat : JsVal -> Js.number.

(** The first filter; [None] is a [null] element of the array. *)
Definition hasCoordinates (t : option Raw.t) : bool :=
  match t with
  | None => false
  | Some t =>
      (notNullish (Raw.lat t) || isZero (Raw.lat t))
      && (notNullish (Raw.lng t) || isZero (Raw.lng t))
  end.

(** [typeof v === "number" ? v : parseFloat(v)]. *)
Definition toCoordinate (v : JsVal) : Js.number :=
  match v with
  | VNumber n => n
  | _ => parseFloat v
  end.

(** The map step, on the elements that passed the first filter. *)
Definition withNumbers (t : Raw.t) : Planned.t :=
  Planned.mk (Raw.id t) (Raw.title t) (Raw.address t)
             (toCoordinate (Raw.lat t)) (toCoordinate (Raw.lng t))
             (Raw.order t) (Raw.estimatedTravelMinutes t)
             (Raw.durationMinutes t) (Raw.mustArriveBy t) (Raw.fixedTime t).

(** The map step over the filtered array; a [null] element never passes
    the first filter. *)
Fixpoint mapWithNumbers (l : list (option Raw.t)) : list Planned.t :=
  match l with
  | [] => []
  | Some t :: rest => withNumbers t :: mapWithNumbers rest
  | None :: rest => mapWithNumbers rest
  end.

(** The second filter. *)
Definition coordinatesAreNumbers (t : Planned.t) : bool :=
  negb (numberIsNaN (Planned.lat t)) && negb (numberIsNaN (Planned.lng t)).

(** The comparator [(a.order ?? 999) - (b.order ?? 999)]. *)
Definition byOrderOr999 (a b : Planned.t) : Js.number :=
  Js.Num (inject_Z (orderOr999 (Planned.order a)
                    - orderOr999 (Planned.order b))).

(** The value [planRouteFromText] returns for a parsed array. *)
Definition normalise (tasks : list (option Raw.t)) : list Planned.t :=
  Js.sort byOrderOr999
    (filter coordinatesAreNumbers
       (mapWithNumbers (filter hasCoordinates tasks))).

End Normalise.

(* ================================================================== *)
(** ** The first scheduler ([createSchedule]) *)
(* ================================================================== *)

Section CreateSchedule.
Variable parse : string -> option Z.

(** The comparator [a.order - b.order]. *)
Definition byOrder (a b : Planned.t) : Js.number :=
  match Js.sub (orderNumber (Planned.order a))
               (orderNumber (Planned.order b)) with
  | Some d => Js.Num (inject_Z d)
  | None => Js.NaN
  end.

(** One turn of the loop: the item pushed for [task] when the clock shows
    [time]. *)
Definition plannedItem (task : Planned.t) (time : Js.Date)
  : Slot.t :=
  let travel := minutesOr0 (Planned.estimatedTravelMinutes task) in
  let time := Js.newDate (Js.add (Js.getTime time)
                                 (Some (travel * 60 * 1000)%Z)) in
  let startTime := Js.newDate (Js.getTime time) in
  let endTime :=
    Js.newDate (Js.add (Js.getTime startTime)
                       (durationMs (Planned.durationMinutes task))) in
  let mustArrive := dateOf parse (Planned.mustArriveBy task) in
  let clamp :=
    Planned.fixedTime task && truthy (Planned.mustArriveBy task)
    && Js.dateGt endTime mustArrive in
  let endTime' := if clamp then mustArrive else endTime in
  let startTime' :=
    if clamp
    then Js.newDate (Js.sub (Js.getTime endTime')
                            (durationMs (Planned.durationMinutes task)))
    else startTime in
  Slot.mk (Planned.id task) (Planned.title task)
                 (Planned.address task) (Planned.lat task)
                 (Planned.lng task) startTime' endTime'.

(** The loop over the sorted tasks. *)
Fixpoint scheduleFrom (time : Js.Date) (sortedTasks : list Planned.t)
  : list Slot.t :=
  match sortedTasks with
  | [] => []
  | task :: rest =>
      let item := plannedItem task time in
      item :: scheduleFrom (Slot.endTime item) rest
  end.

(** [createSchedule(tasks, currentLocation, currentTime)] with the current
    time given as an ISO string. *)
Definition createSchedule (tasks : list Planned.t) (currentLocation : LatLng)
           (currentTime : string) : list Slot.t :=
  let sortedTasks := Js.sort byOrder tasks in
  scheduleFrom (Js.newDate (parse currentTime)) sortedTasks.

End CreateSchedule.

(** Sample planned tasks. *)
Module PlanFixture.
Open Scope string_scope.

Definition planned (name : string) (order : Order) (travel minutes : Z)
           (by_ : Deadline) (fixed : bool) : Planned.t :=
  Planned.mk name name "" (Js.Num 1) (Js.Num 2) order (DurNum travel)
             (DurNum minutes) by_ fixed.

Definition raw (name : string) (lat lng : JsVal) (order : Order) : Raw.t :=
  Raw.mk name name "" lat lng order (DurNum 10) (DurNum 30) ByNull false.

(** Stand-in for [parseFloat] on values that are not numbers: the string
    ["30.5"] reads as 30.5, anything else is not a number. *)
Definition parseFloat (v : JsVal) : Js.number :=
  match v with
  | VString s => if String.eqb s "30.5" then Js.Num (61 # 2) else Js.NaN
  | _ => Js.NaN
  end.
End PlanFixture.

(** [a]'s [order] is a number no greater than [b]'s ([null] counting as
    zero, as in a subtraction). *)
Definition orderLe (a b : Planned.t) : Prop :=
  match orderNumber (Planned.order a), orderNumber (Planned.order b) with
  | Some x, Some y => (x <= y)%Z
  | _, _ => False
  end.

(* ================================================================== *)
(** ** Resolving locations (places utilities) *)
(* ================================================================== *)

(** What a lookup returns for a place. *)
Module Place.
Record t : Type := mk {
  name : string;
  address : string;
  lat : Q;
  lng : Q;
  placeId : string
}.
End Place.

(** A task as extracted from the user's message, before and after its
    location is resolved. *)
Module Errand.
Record t : Type := mk {
  id : string;
  title : string;
  location : string;
  (** [None] while the task has no address *)
  address : option string;
  lat : JsVal;
  lng : JsVal;
  durationMinutes : Duration;
  mustArriveBy : Deadline;
  fixedTime : bool
}.
End Errand.

Section ResolveLocations.

(** The two lookups, by query and user location; [None] is [null]. *)
Variable findWithPlacesAPI : string -> LatLng -> option Place.t.
Variable findWithGeocodingAPI : string -> LatLng -> option Place.t.

(** Whether a string converts to NaN. *)
Variable stringIsNaN : string -> bool.

(** Whether [window.google.maps.Geocoder] is there. *)
Variable geocoderLoaded : bool.

(** The global [isNaN(v)]. *)
Definition isNaN (v : JsVal) : bool :=
  match v with
  | VUndefined => true
  | VNull => false
  | VNumber n => numberIsNaN n
  | VString s => stringIsNaN s
  | VBool _ => false
  end.

(** Places first, geocoding as the fallback. *)
Definition findNearbyPlace (query : string) (userLocation : LatLng)
  : option Place.t :=
  match findWithPlacesAPI query userLocation with
  | Some result => Some result
  | None =>
      match findWithGeocodingAPI query userLocation with
      | Some result => Some result
      | None => None
      end
  end.

(** [task.lat && task.lng && !isNaN(task.lat) && !isNaN(task.lng)]. *)
Definition hasValidCoordinates (task : Errand.t) : bool :=
  truthyVal (Errand.lat task) && truthyVal (Errand.lng task)
  && negb (isNaN (Errand.lat task)) && negb (isNaN (Errand.lng task)).

(** [{...task, address, lat, lng, location}] with the data of [place]. *)
Definition withPlace (task : Errand.t) (place : Place.t) : Errand.t :=
  Errand.mk (Errand.id task) (Errand.title task) (Place.name place)
            (Some (Place.address place))
            (VNumber (Js.Num (Place.lat place)))
            (VNumber (Js.Num (Place.lng place)))
            (Errand.durationMinutes task) (Errand.mustArriveBy task)
            (Errand.fixedTime task).

(** The loop over the tasks, one lookup after the other. *)
Fixpoint resolveEach (tasks : list Errand.t) (userLocation : LatLng)
  : list Errand.t :=
  match tasks with
  | [] => []
  | task :: rest =>
      if hasValidCoordinates task
      then task :: resolveEach rest userLocation
      else
        match findNearbyPlace (Errand.location task) userLocation with
        | Some place => withPlace task place :: resolveEach rest userLocation
        | None => resolveEach rest userLocation
        end
  end.

Definition resolveLocations (tasks : list Errand.t) (userLocation : LatLng)
  : list Errand.t :=
  if negb geocoderLoaded then [] else resolveEach tasks userLocation.

(** A task that [resolveLocations] keeps. *)
Definition resolvable (userLocation : LatLng) (task : Errand.t) : bool :=
  hasValidCoordinates task
  || match findNearbyPlace (Errand.location task) userLocation with
     | Some _ => true
     | None => false
     end.

End ResolveLocations.

(** Sample lookups: the places service knows one shop, the geocoder one
    library. *)
Module PlaceFixture.
Open Scope string_scope.

Definition places (query : string) (userLocation : LatLng)
  : option Place.t :=
  if String.eqb query "HEB"
  then Some (Place.mk "H-E-B" "1900 Texas Ave" (306 # 10) (-963 # 10) "p1")
  else None.

Definition geocoder (query : string) (userLocation : LatLng)
  : option Place.t :=
  if String.eqb query "Evans Library"
  then Some (Place.mk "Evans Library" "400 Spence St" (3061 # 100)
                      (-9634 # 100) "p2")
  else None.

Definition stringIsNaN (s : string) : bool := true.

Definition errand (name location : string) (lat lng : JsVal) : Errand.t :=
  Errand.mk name name location None lat lng (DurNum 30) ByNull false.
End PlaceFixture.

(* ================================================================== *)
(** ** From the reply text to tasks *)
(* ================================================================== *)

(** What [JSON5.parse] returns as far as the code distinguishes: an array
    or a single value. *)
Inductive Parsed (T : Type) : Type :=
| PArray (items : list T)
| PSingle (item : T).

Arguments PArray {T} items.
Arguments PSingle {T} item.

(** [Array.isArray(tasks) ? tasks : [tasks]]. *)
Definition asArray {T : Type} (p : Parsed T) : list T :=
  match p with
  | PArray items => items
  | PSingle item => [item]
  end.

Section Reply.
Context {T : Type}.

(** [JSON5.parse]; [None] when it throws.  An element of the parsed array
    is [None] when it is [null]. *)
Variable JSON5parse : text -> option (Parsed (option T)).

(** [extractCompleteJsonArray(textOutput) || textOutput]. *)
Definition jsonTextOf (textOutput : text) : text :=
  match extractCompleteJsonArray textOutput with
  | Some t => t
  | None => textOutput
  end.

(** Whether the log line [parsedTasks.map(t => ({ title: t.title, ... }))]
    goes through: reading [t.title] of a [null] element throws. *)
Definition loggable (parsedTasks : list (option T)) : bool :=
  forallb (fun t => match t with Some _ => true | None => false end)
          parsedTasks.

(** The end of [extractTasksFromText], from the reply text on: the parsed
    tasks, or the empty list when parsing or the log line throws. *)
Definition extractedTasks (textOutput : text) : list (option T) :=
  match JSON5parse (jsonTextOf textOutput) with
  | Some tasks =>
      let parsedTasks := asArray tasks in
      if loggable parsedTasks then parsedTasks else []
  | None => []
  end.

(** The parsing steps of [planRouteFromText]: the repair is tried when the
    first parse throws; [None] when an exception reaches the outer
    handler. *)
Definition plannedValue (textOutput : text) : option (Parsed (option T)) :=
  match JSON5parse (jsonTextOf textOutput) with
  | Some tasks => Some tasks
  | None =>
      match tryRepairTruncatedJson textOutput with
      | Some jsonText => JSON5parse jsonText
      | None => None
      end
  end.

End Reply.

(** The end of [planRouteFromText], from the reply text on. *)
Definition plannedTasks (JSON5parse : text -> option (Parsed (option Raw.t)))
           (parseFloat : JsVal -> Js.number) (textOutput : text)
  : list Planned.t :=
  match plannedValue JSON5parse textOutput with
  | Some tasks => normalise parseFloat (asArray tasks)
  | None => []
  end.

(** Stand-in for [JSON5.parse]: it reads the empty array only. *)
Definition parseEmptyArray {T : Type} (s : text) : option (Parsed T) :=
  match s with
  | [91%N; 93%N] => Some (PArray [])
  | _ => None
  end.
(* ================================================================== *)
(** ** Facts about the sort *)
(* ================================================================== *)

Section SortFacts.
Context {A : Type}.
Variable comparefn : A -> A -> Js.number.

Lemma insert_perm (x : A) (l : list A) :
  Permutation (Js.insert comparefn x l) (x :: l).
Proof.
  induction l as [| y l IH]; simpl.
  - apply Permutation_refl.
  - destruct (Js.after comparefn x y).
    + apply Permutation_trans with (y :: x :: l).
      * apply perm_skip. exact IH.
      * apply perm_swap.
    + apply Permutation_refl.
Qed.

Lemma sort_perm (l : list A) : Permutation (Js.sort comparefn l) l.
Proof.
  induction l as [| x l IH]; simpl.
  - apply perm_nil.
  - apply Permutation_trans with (x :: Js.sort comparefn l).
    + apply insert_perm.
    + apply perm_skip. exact IH.
Qed.

Lemma sort_length (l : list A) :
  List.length (Js.sort comparefn l) = List.length l.
Proof. apply Permutation_length, sort_perm. Qed.

Lemma sort_Forall (P : A -> Prop) (l : list A) :
  Forall P l -> Forall P (Js.sort comparefn l).
Proof.
  intro H. apply (Permutation_Forall (x := l)); [| exact H].
  apply Permutation_sym, sort_perm.
Qed.

(** When, on the elements that satisfy [P], the comparator decides an
    order [le] that is transitive, the sort returns an ordered list. *)
Section Ordered.
Variable le : A -> A -> Prop.
Variable P : A -> Prop.
Hypothesis le_trans : forall x y z, le x y -> le y z -> le x z.
Hypothesis after_true :
  forall x y, P x -> P y -> Js.after comparefn x y = true -> le y x.
Hypothesis after_false :
  forall x y, P x -> P y -> Js.after comparefn x y = false -> le x y.

Lemma insert_sorted (x : A) (l : list A) :
  P x -> Forall P l -> StronglySorted le l ->
  StronglySorted le (Js.insert comparefn x l).
Proof.
  intros Px. induction l as [| y l IH]; intros HP Hs; simpl.
  - constructor; [constructor | constructor].
  - inversion HP as [| ? ? Py HPl]; subst.
    inversion Hs as [| ? ? Hsl Hy]; subst.
    destruct (Js.after comparefn x y) eqn:E.
    + constructor.
      * apply IH; assumption.
      * apply (Permutation_Forall (x := x :: l)).
        -- apply Permutation_sym, insert_perm.
        -- constructor; [apply after_true; assumption | exact Hy].
    + constructor; [exact Hs |].
      assert (Hxy : le x y) by (apply after_false; assumption).
      constructor; [exact Hxy |].
      eapply Forall_impl; [| exact Hy].
      intros z Hz. eapply le_trans; eassumption.
Qed.

Lemma sort_sorted (l : list A) :
  Forall P l -> StronglySorted le (Js.sort comparefn l).
Proof.
  induction l as [| x l IH]; intro HP; simpl.
  - constructor.
  - inversion HP; subst.
    apply insert_sorted; [assumption | | apply IH; assumption].
    apply sort_Forall; assumption.
Qed.
End Ordered.
(** For a consistent comparator the sort is the stable sort: the only
    ordered rearrangement that keeps tied elements in their order. *)
Section Stable.
Hypothesis after_asym :
  forall x y, Js.after comparefn x y = true -> Js.after comparefn y x = false.
Hypothesis notAfter_trans :
  forall x y z,
    Js.after comparefn x y = false -> Js.after comparefn y z = false ->
    Js.after comparefn x z = false.

Lemma after_irrefl (x : A) : Js.after comparefn x x = false.
Proof.
  destruct (Js.after comparefn x x) eqn:E; [| reflexivity].
  now rewrite (after_asym _ _ E) in E.
Qed.

Lemma tied_refl (x : A) : Js.tied comparefn x x = true.
Proof. unfold Js.tied. now rewrite after_irrefl. Qed.

Lemma tied_true (x y : A) :
  Js.tied comparefn x y = true <->
  Js.after comparefn x y = false /\ Js.after comparefn y x = false.
Proof.
  unfold Js.tied. rewrite andb_true_iff, !negb_true_iff. tauto.
Qed.

Lemma filter_tied_insert (z x : A) (l : list A) :
  filter (Js.tied comparefn z) (Js.insert comparefn x l)
  = filter (Js.tied comparefn z) (x :: l).
Proof.
  induction l as [| y l IH]; [reflexivity |].
  simpl. destruct (Js.after comparefn x y) eqn:E; [| reflexivity].
  simpl. rewrite IH. simpl.
  destruct (Js.tied comparefn z x) eqn:Ex,
           (Js.tied comparefn z y) eqn:Ey; try reflexivity.
  apply tied_true in Ex, Ey.
  assert (Js.after comparefn x y = false)
    by (apply notAfter_trans with z; tauto).
  congruence.
Qed.

Lemma filter_tied_sort (z : A) (l : list A) :
  filter (Js.tied comparefn z) (Js.sort comparefn l)
  = filter (Js.tied comparefn z) l.
Proof.
  induction l as [| x l IH]; [reflexivity |].
  simpl Js.sort. rewrite filter_tied_insert. simpl. now rewrite IH.
Qed.

Lemma sort_ordered (l : list A) :
  StronglySorted (fun x y => Js.after comparefn x y = false)
                 (Js.sort comparefn l).
Proof.
  apply sort_sorted with (P := fun _ => True).
  - exact notAfter_trans.
  - intros x y _ _. apply after_asym.
  - intros x y _ _ H. exact H.
  - rewrite Forall_forall. auto.
Qed.

Lemma stable_sorted_unique :
  forall l1 l2 : list A,
    StronglySorted (fun x y => Js.after comparefn x y = false) l1 ->
    StronglySorted (fun x y => Js.after comparefn x y = false) l2 ->
    Permutation l1 l2 ->
    (forall z, filter (Js.tied comparefn z) l1
               = filter (Js.tied comparefn z) l2) ->
    l1 = l2.
Proof.
  induction l1 as [| a l1 IH]; intros l2 Hs1 Hs2 Hperm Htied.
  - now apply Permutation_nil in Hperm.
  - destruct l2 as [| b l2];
      [apply Permutation_sym, Permutation_nil in Hperm; discriminate |].
    inversion Hs1 as [| ? ? Hs1' Ha]; subst.
    inversion Hs2 as [| ? ? Hs2' Hb]; subst.
    rewrite Forall_forall in Ha, Hb.
    assert (Hab : Js.after comparefn a b = false).
    { assert (Hin : In b (a :: l1))
        by (apply (Permutation_in b (Permutation_sym Hperm)); now left).
      destruct Hin as [<- | Hin]; [apply after_irrefl | now apply Ha]. }
    assert (Hba : Js.after comparefn b a = false).
    { assert (Hin : In a (b :: l2))
        by (apply (Permutation_in a Hperm); now left).
      destruct Hin as [<- | Hin]; [apply after_irrefl | now apply Hb]. }
    assert (Heq : a = b).
    { specialize (Htied a). simpl in Htied.
      rewrite tied_refl in Htied.
      assert (Ht : Js.tied comparefn a b = true) by (apply tied_true; tauto).
      rewrite Ht in Htied. now injection Htied. }
    subst b. f_equal. apply IH; try assumption.
    + now apply Permutation_cons_inv in Hperm.
    + intro z. specialize (Htied z). simpl in Htied.
      destruct (Js.tied comparefn z a); [now injection Htied | exact Htied].
Qed.

Lemma sort_unique (l l' : list A) :
  Permutation l' l ->
  StronglySorted (fun x y => Js.after comparefn x y = false) l' ->
  (forall z, filter (Js.tied comparefn z) l'
             = filter (Js.tied comparefn z) l) ->
  l' = Js.sort comparefn l.
Proof.
  intros Hperm Hsorted Htied.
  apply stable_sorted_unique.
  - exact Hsorted.
  - apply sort_ordered.
  - apply Permutation_trans with l; [exact Hperm |].
    apply Permutation_sym, sort_perm.
  - intro z. now rewrite filter_tied_sort.
Qed.
End Stable.
End SortFacts.

Lemma filter_partition_perm {A : Type} (f : A -> bool) (l : list A) :
  Permutation (filter f l ++ filter (fun x => negb (f x)) l) l.
Proof.
  induction l as [| x l IH]; simpl.
  - apply perm_nil.
  - destruct (f x); simpl.
    + apply perm_skip, IH.
    + apply Permutation_sym, Permutation_cons_app, Permutation_sym, IH.
Qed.

(** Positions in a concatenation whose first part satisfies [p] and whose
    second part does not. *)
Lemma block_positions {A : Type} (p : A -> bool) (l1 l2 : list A) :
  Forall (fun x => p x = true) l1 ->
  Forall (fun x => p x = false) l2 ->
  forall i j a b,
    nth_error (l1 ++ l2) i = Some a -> nth_error (l1 ++ l2) j = Some b ->
    p a = false -> p b = true -> (j < List.length l1 <= i)%nat.
Proof.
  intros H1 H2 i j a b Hi Hj Ha Hb.
  rewrite Forall_forall in H1, H2.
  split.
  - destruct (Nat.lt_ge_cases j (List.length l1)) as [Hlt | Hge]; [exact Hlt |].
    rewrite nth_error_app2 in Hj by exact Hge.
    apply nth_error_In, H2 in Hj. congruence.
  - destruct (Nat.lt_ge_cases i (List.length l1)) as [Hlt | Hge]; [| exact Hge].
    rewrite nth_error_app1 in Hi by exact Hlt.
    apply nth_error_In, H1 in Hi. congruence.
Qed.

(* ================================================================== *)
(** ** The sequencer: structure of the final order *)
(* ================================================================== *)

Section SequencerFacts.
Variable parse : string -> option Z.
Variable computeDistanceBetween : LatLng -> LatLng -> Q.

Lemma fixedTasks_perm (tasks : list Task.t) :
  Permutation (fixedTasks parse tasks) (filter Task.fixedTime tasks).
Proof. apply sort_perm. Qed.

Lemma orderedFlexible_perm (tasks : list Task.t) (userLocation : LatLng) :
  Permutation (orderedFlexible parse computeDistanceBetween tasks userLocation)
              (flexibleTasks tasks).
Proof.
  unfold orderedFlexible.
  destruct (0 <? List.length (flexibleTasks tasks))%nat.
  - apply sort_perm.
  - apply Permutation_refl.
Qed.

Lemma fixedTasks_fixed (tasks : list Task.t) :
  Forall (fun t => Task.fixedTime t = true) (fixedTasks parse tasks).
Proof.
  apply sort_Forall. rewrite Forall_forall.
  intros t Ht. apply filter_In in Ht. tauto.
Qed.

Lemma orderedFlexible_flexible (tasks : list Task.t) (userLocation : LatLng) :
  Forall (fun t => Task.fixedTime t = false)
         (orderedFlexible parse computeDistanceBetween tasks userLocation).
Proof.
  apply (Permutation_Forall (x := flexibleTasks tasks)).
  - apply Permutation_sym, orderedFlexible_perm.
  - rewrite Forall_forall. intros t Ht. apply filter_In in Ht.
    destruct Ht as [_ Ht]. now apply negb_true_iff in Ht.
Qed.

Lemma calculateOptimalRoute_perm (tasks : list Task.t) (userLocation : LatLng) :
  Permutation
    (calculateOptimalRoute parse computeDistanceBetween tasks userLocation)
    tasks.
Proof.
  unfold calculateOptimalRoute.
  apply Permutation_trans
    with (filter Task.fixedTime tasks ++ flexibleTasks tasks).
  - apply Permutation_app; [apply fixedTasks_perm | apply orderedFlexible_perm].
  - apply filter_partition_perm.
Qed.

Lemma Qle_bool_inject_Z_0 (z : Z) : Qle_bool (inject_Z z) 0 = (z <=? 0)%Z.
Proof. unfold Qle_bool, inject_Z; simpl. now rewrite Z.mul_1_r. Qed.

Lemma after_byDeadline (a b : Task.t) (x y : Z) :
  dateOf parse (Task.mustArriveBy a) = Some x ->
  dateOf parse (Task.mustArriveBy b) = Some y ->
  Js.after (byDeadline parse) a b = (y <? x)%Z.
Proof.
  intros Ha Hb. unfold Js.after, Js.SortCompare, byDeadline, Js.dateDiff.
  rewrite Ha, Hb. simpl. rewrite Qle_bool_inject_Z_0.
  destruct (Z.leb_spec (x - y) 0), (Z.ltb_spec y x); simpl; auto; lia.
Qed.

Lemma deadlineLe_trans (a b c : Task.t) :
  deadlineLe parse a b -> deadlineLe parse b c -> deadlineLe parse a c.
Proof.
  unfold deadlineLe.
  destruct (dateOf parse (Task.mustArriveBy a)),
           (dateOf parse (Task.mustArriveBy b)),
           (dateOf parse (Task.mustArriveBy c)); try tauto; lia.
Qed.

(** With usable deadlines the fixed block comes out in deadline order. *)
Lemma fixedTasks_sorted (tasks : list Task.t) :
  (forall t, In t tasks -> Task.fixedTime t = true ->
             dateOf parse (Task.mustArriveBy t) <> None) ->
  StronglySorted (deadlineLe parse) (fixedTasks parse tasks).
Proof.
  intro Hok.
  apply sort_sorted
    with (P := fun t => dateOf parse (Task.mustArriveBy t) <> None).
  - exact deadlineLe_trans.
  - intros a b Ha Hb. unfold deadlineLe.
    destruct (dateOf parse (Task.mustArriveBy a)) as [x |] eqn:Ea; [| congruence].
    destruct (dateOf parse (Task.mustArriveBy b)) as [y |] eqn:Eb; [| congruence].
    rewrite (after_byDeadline _ _ Ea Eb). intro H.
    apply Z.ltb_lt in H. lia.
  - intros a b Ha Hb. unfold deadlineLe.
    destruct (dateOf parse (Task.mustArriveBy a)) as [x |] eqn:Ea; [| congruence].
    destruct (dateOf parse (Task.mustArriveBy b)) as [y |] eqn:Eb; [| congruence].
    rewrite (after_byDeadline _ _ Ea Eb). intro H.
    apply Z.ltb_ge in H. exact H.
  - rewrite Forall_forall. intros t Ht. apply filter_In in Ht.
    destruct Ht as [Hin Hf]. now apply Hok.
Qed.

Lemma after_byDistance (p : LatLng) (a b : Task.t) :
  Js.after (byDistance computeDistanceBetween p) a b = true <->
  ~ distanceLe computeDistanceBetween p a b.
Proof.
  unfold Js.after, Js.SortCompare, byDistance, distanceBetween, distanceLe.
  destruct p as [plat plng]; simpl.
  set (da := computeDistanceBetween _ (mkLatLng (Task.lat a) (Task.lng a))).
  set (db := computeDistanceBetween _ (mkLatLng (Task.lat b) (Task.lng b))).
  rewrite negb_true_iff, <- not_true_iff_false, Qle_bool_iff.
  split; intros H H'; apply H.
  - apply Qle_minus_iff in H'. apply Qle_minus_iff.
    setoid_replace (0 - (da - db)) with (db + - da) by ring. exact H'.
  - apply Qle_minus_iff in H'. apply Qle_minus_iff.
    setoid_replace (db + - da) with (0 + - (da - db)) by ring. exact H'.
Qed.

(** The flexible block of any list comes out in order of distance to the
    reference point. *)
Lemma sort_byDistance_sorted (p : LatLng) (l : list Task.t) :
  StronglySorted (distanceLe computeDistanceBetween p)
                 (Js.sort (byDistance computeDistanceBetween p) l).
Proof.
  apply sort_sorted with (P := fun _ => True).
  - intros a b c. unfold distanceLe. apply Qle_trans.
  - intros a b _ _ H. apply after_byDistance in H.
    unfold distanceLe in *. apply Qlt_le_weak, Qnot_le_lt, H.
  - intros a b _ _ H.
    destruct (Qlt_le_dec
                (computeDistanceBetween p (mkLatLng (Task.lat b) (Task.lng b)))
                (computeDistanceBetween p (mkLatLng (Task.lat a) (Task.lng a))))
      as [Hlt | Hle]; [| exact Hle].
    assert (Ht : Js.after (byDistance computeDistanceBetween p) a b = true).
    { apply after_byDistance. unfold distanceLe. now apply Qlt_not_le. }
    congruence.
  - rewrite Forall_forall. auto.
Qed.

Lemma notAfter_byDistance (p : LatLng) (a b : Task.t) :
  Js.after (byDistance computeDistanceBetween p) a b = false <->
  distanceLe computeDistanceBetween p a b.
Proof.
  rewrite <- not_true_iff_false, after_byDistance.
  unfold distanceLe. split.
  - intro H.
    destruct (Qlt_le_dec
                (computeDistanceBetween p (mkLatLng (Task.lat b) (Task.lng b)))
                (computeDistanceBetween p (mkLatLng (Task.lat a) (Task.lng a))))
      as [Hlt | Hle]; [| exact Hle].
    exfalso. apply H. now apply Qlt_not_le.
  - intros H H'. now apply H'.
Qed.

(** The distance comparator is consistent, so the order of the flexible
    tasks does not depend on how the engine sorts: any rearrangement of
    them in non-decreasing distance that keeps equidistant tasks in their
    input order is the one the model returns. *)
Lemma sort_byDistance_unique (p : LatLng) (l l' : list Task.t) :
  Permutation l' l ->
  StronglySorted (distanceLe computeDistanceBetween p) l' ->
  (forall z,
      filter (Js.tied (byDistance computeDistanceBetween p) z) l'
      = filter (Js.tied (byDistance computeDistanceBetween p) z) l) ->
  l' = Js.sort (byDistance computeDistanceBetween p) l.
Proof.
  intros Hperm Hsorted Htied.
  apply sort_unique; try assumption.
  - intros x y H. apply after_byDistance in H.
    apply notAfter_byDistance. unfold distanceLe in *.
    apply Qlt_le_weak, Qnot_le_lt, H.
  - intros x y z Hxy Hyz. apply notAfter_byDistance in Hxy, Hyz.
    apply notAfter_byDistance. unfold distanceLe in *.
    eapply Qle_trans; eassumption.
  - clear Hperm Htied. induction Hsorted as [| x l0 Hs IH Hx].
    + constructor.
    + constructor; [exact IH |].
      eapply Forall_impl; [| exact Hx].
      intros y Hy. now apply notAfter_byDistance.
Qed.

End SequencerFacts.

(* ================================================================== *)
(** ** The sequencer: results *)
(* ================================================================== *)

Lemma referencePoint_anchorOf (parse : string -> option Z)
      (tasks : list Task.t) (userLocation : LatLng) :
  referencePoint parse tasks userLocation
  = anchorOf (fixedTasks parse tasks) userLocation.
Proof.
  unfold referencePoint, anchorOf.
  destruct (fixedTasks parse tasks) as [| t0 rest].
  - simpl. now destruct userLocation.
  - destruct (rev (t0 :: rest)) as [| r l'] eqn:E.
    + apply (f_equal (@List.length _)) in E.
      rewrite length_rev in E. discriminate.
    + apply (f_equal (@rev _)) in E. rewrite rev_involutive in E.
      simpl in E. destruct (rev l') as [| x l3]; simpl in E.
      * injection E as -> ->. reflexivity.
      * injection E as -> ->. now rewrite last_last.
Qed.

(** C1, as the code has it.  The final order is the fixed tasks as a
    leading block followed by the flexible tasks: the block holds exactly
    the tasks of the input flagged [fixedTime], the rest exactly the
    others, so wherever a flexible and a fixed task stand in the order the
    fixed one comes first, for every distance function, that is for every
    geographic layout.  The block is in non-decreasing deadline order when
    every fixed task has a deadline that is a valid time. *)
Theorem C1_fixed_block_first
        (parse : string -> option Z)
        (computeDistanceBetween : LatLng -> LatLng -> Q)
        (tasks : list Task.t) (userLocation : LatLng) :
  exists fixed flexible,
    calculateOptimalRoute parse computeDistanceBetween tasks userLocation
    = fixed ++ flexible
    /\ Permutation fixed (filter Task.fixedTime tasks)
    /\ Permutation flexible
                   (filter (fun t => negb (Task.fixedTime t)) tasks)
    /\ Permutation (fixed ++ flexible) tasks
    /\ (forall i j a b,
           nth_error (fixed ++ flexible) i = Some a ->
           nth_error (fixed ++ flexible) j = Some b ->
           Task.fixedTime a = false -> Task.fixedTime b = true ->
           (j < i)%nat)
    /\ ((forall t, In t tasks -> Task.fixedTime t = true ->
                   dateOf parse (Task.mustArriveBy t) <> None) ->
        StronglySorted (deadlineLe parse) fixed).
Proof.
  exists (fixedTasks parse tasks),
         (orderedFlexible parse computeDistanceBetween tasks userLocation).
  split; [reflexivity |].
  split; [apply fixedTasks_perm |].
  split; [apply orderedFlexible_perm |].
  split; [apply calculateOptimalRoute_perm |].
  split.
  - intros i j a b Hi Hj Ha Hb.
    pose proof (block_positions Task.fixedTime
                  (fixedTasks_fixed parse tasks)
                  (orderedFlexible_flexible parse computeDistanceBetween
                                            tasks userLocation)
                  i j Hi Hj Ha Hb) as H.
    lia.
  - apply fixedTasks_sorted.
Qed.

(** A run of C1: a flexible stop next to the origin and two fixed stops
    given in the wrong deadline order. *)
Lemma C1_fixed_block_first_witness :
  let tasks := [Fixture.flexibleAt "a" 1;
                Fixture.fixedAt "b" 9 Fixture.at0900;
                Fixture.fixedAt "c" 5 Fixture.at0830] in
  exists fixed flexible,
    calculateOptimalRoute Fixture.parse Fixture.distance tasks Fixture.origin
    = fixed ++ flexible
    /\ StronglySorted (deadlineLe Fixture.parse) fixed.
Proof.
  intro tasks.
  destruct (C1_fixed_block_first Fixture.parse Fixture.distance tasks
                                 Fixture.origin)
    as (fixed & flexible & Hout & _ & _ & _ & _ & Hsorted).
  exists fixed, flexible. split; [exact Hout |].
  apply Hsorted. intros t Hin _.
  destruct Hin as [<- | [<- | [<- | []]]]; discriminate.
Defined.

(** C1 as stated does not hold for every task list: with a fixed task that
    has no [mustArriveBy] between a stop due at 09:00 and a stop due at
    08:30, every comparison the sort makes involves the missing deadline
    and yields NaN, so the three stay as they are and the stop due at 09:00
    is visited before the one due at 08:30.  The block is then not in
    non-decreasing deadline order, even when a missing deadline is never
    counted as out of order. *)
Lemma C1_missing_deadline_breaks_order :
  let late := Fixture.fixedAt "late" 1 Fixture.at0900 in
  let m := Fixture.fixedAt "m" 2 ByAbsent in
  let early := Fixture.fixedAt "early" 3 Fixture.at0830 in
  let finalOrder :=
    calculateOptimalRoute Fixture.parse Fixture.distance [late; m; early]
                          Fixture.origin in
  finalOrder = [late; m; early]
  /\ Forall (fun t => Task.fixedTime t = true) finalOrder
  /\ dateOf Fixture.parse (Task.mustArriveBy late) = Some 1771081200000%Z
  /\ dateOf Fixture.parse (Task.mustArriveBy early) = Some 1771079400000%Z
  /\ (1771079400000 < 1771081200000)%Z
  /\ ~ StronglySorted (notDueAfter Fixture.parse) finalOrder.
Proof.
  intros late m early finalOrder.
  assert (Hout : finalOrder = [late; m; early]) by reflexivity.
  split; [exact Hout |].
  split; [rewrite Hout; repeat constructor |].
  split; [reflexivity |].
  split; [reflexivity |].
  split; [lia |].
  rewrite Hout. intro Hsorted.
  inversion Hsorted as [| ? ? _ Hall]; subst.
  inversion Hall as [| ? ? _ Hrest]; subst.
  inversion Hrest as [| ? ? Hpair _]; subst.
  vm_compute in Hpair. apply Hpair. reflexivity.
Qed.

Example fixed_first_scenario :
  map Task.id
      (calculateOptimalRoute Fixture.parse Fixture.distance
         [Fixture.flexibleAt "a" 1; Fixture.fixedAt "b" 9 Fixture.at0900]
         Fixture.origin)
  = ["b"; "a"]%string.
Proof. reflexivity. Qed.

Example deadline_reorder_scenario :
  map Task.id
      (calculateOptimalRoute Fixture.parse Fixture.distance
         [Fixture.fixedAt "late" 1 Fixture.at0900;
          Fixture.fixedAt "early" 2 Fixture.at0830]
         Fixture.origin)
  = ["early"; "late"]%string.
Proof. reflexivity. Qed.

(** C6. The final order is a permutation of the task list: the same tasks,
    hence the same multiset of ids and the same length, none dropped and
    none repeated; the empty list gives the empty order.  Coordinates are
    rationals in this model, so every task has resolved coordinates. *)
Theorem C6_sequence_permutation
        (parse : string -> option Z)
        (computeDistanceBetween : LatLng -> LatLng -> Q)
        (tasks : list Task.t) (userLocation : LatLng) :
  let finalOrder :=
    calculateOptimalRoute parse computeDistanceBetween tasks userLocation in
  Permutation finalOrder tasks
  /\ Permutation (map Task.id finalOrder) (map Task.id tasks)
  /\ List.length finalOrder = List.length tasks
  /\ calculateOptimalRoute parse computeDistanceBetween [] userLocation = [].
Proof.
  intro finalOrder.
  assert (H : Permutation finalOrder tasks)
    by apply calculateOptimalRoute_perm.
  split; [exact H |].
  split; [apply Permutation_map; exact H |].
  split; [apply Permutation_length; exact H | reflexivity].
Qed.

(** C5. With at least one flexible task, the flexible part of the final
    order is one sort of the flexible tasks by their distance to a single
    anchor, the last stop of the fixed block when there is one and the
    origin otherwise: it is a permutation of the flexible tasks in
    non-decreasing distance to that anchor.  It is not a chained
    nearest-neighbour walk: on some input the two orders differ. *)
Theorem C5_flexible_sorted_from_one_anchor :
  (forall (parse : string -> option Z)
          (computeDistanceBetween : LatLng -> LatLng -> Q)
          (tasks : list Task.t) (userLocation : LatLng),
      flexibleTasks tasks <> [] ->
      let fixed := fixedTasks parse tasks in
      let anchor := anchorOf fixed userLocation in
      exists flexible,
        calculateOptimalRoute parse computeDistanceBetween tasks userLocation
        = fixed ++ flexible
        /\ flexible
           = Js.sort (byDistance computeDistanceBetween anchor)
                     (flexibleTasks tasks)
        /\ Permutation flexible (flexibleTasks tasks)
        /\ StronglySorted (distanceLe computeDistanceBetween anchor) flexible)
  /\ (exists (parse : string -> option Z)
             (computeDistanceBetween : LatLng -> LatLng -> Q)
             (tasks : list Task.t) (userLocation : LatLng),
         flexibleTasks tasks <> []
         /\ calculateOptimalRoute parse computeDistanceBetween tasks userLocation
            <> fixedTasks parse tasks
               ++ nearestNeighbourChain computeDistanceBetween
                    (List.length (flexibleTasks tasks))
                    (anchorOf (fixedTasks parse tasks) userLocation)
                    (flexibleTasks tasks)).
Proof.
  split.
  - intros parse dist tasks userLocation Hne fixed anchor.
    exists (Js.sort (byDistance dist anchor) (flexibleTasks tasks)).
    split.
    + unfold calculateOptimalRoute, orderedFlexible.
      rewrite referencePoint_anchorOf.
      destruct (flexibleTasks tasks) as [| x l] eqn:E; [congruence |].
      reflexivity.
    + split; [reflexivity |].
      split; [apply sort_perm | apply sort_byDistance_sorted].
  - exists Fixture.parse, Fixture.distance,
           [Fixture.flexibleAt "a" 2; Fixture.flexibleAt "b" (-3);
            Fixture.flexibleAt "c" 5],
           Fixture.origin.
    split; [discriminate |].
    intro H. apply (f_equal (map Task.id)) in H.
    vm_compute in H. discriminate.
Qed.

(** A run of C5: one fixed stop, which becomes the anchor, and two flexible
    stops given farthest first. *)
Lemma C5_flexible_sorted_from_one_anchor_witness :
  let tasks := [Fixture.flexibleAt "far" 1;
                Fixture.fixedAt "b" 9 Fixture.at0900;
                Fixture.flexibleAt "near" 8] in
  exists flexible,
    calculateOptimalRoute Fixture.parse Fixture.distance tasks Fixture.origin
    = fixedTasks Fixture.parse tasks ++ flexible
    /\ StronglySorted
         (distanceLe Fixture.distance
                     (anchorOf (fixedTasks Fixture.parse tasks) Fixture.origin))
         flexible.
Proof.
  intro tasks.
  destruct (proj1 C5_flexible_sorted_from_one_anchor
                  Fixture.parse Fixture.distance tasks Fixture.origin)
    as (flexible & Hout & _ & _ & Hsorted).
  - discriminate.
  - exists flexible. split; [exact Hout | exact Hsorted].
Defined.

Example static_sort_scenario :
  map Task.id
      (calculateOptimalRoute Fixture.parse Fixture.distance
         [Fixture.flexibleAt "far" 1; Fixture.fixedAt "b" 9 Fixture.at0900;
          Fixture.flexibleAt "near" 8]
         Fixture.origin)
  = ["b"; "near"; "far"]%string.
Proof. reflexivity. Qed.

(* ================================================================== *)
(** ** Arithmetic of minutes *)
(* ================================================================== *)

(** [ceilDiv60 v] is the least number of whole minutes that covers [v]
    seconds. *)
Lemma ceilDiv60_bounds (v : Z) :
  (60 * (Js.ceilDiv60 v - 1) < v <= 60 * Js.ceilDiv60 v)%Z.
Proof.
  unfold Js.ceilDiv60.
  pose proof (Qle_ceiling (inject_Z v / 60)) as Hle.
  pose proof (Qceiling_lt (inject_Z v / 60)) as Hlt.
  remember (Qceiling (inject_Z v / 60)) as c eqn:Ec. clear Ec.
  unfold Qle in Hle. unfold Qlt in Hlt. simpl in Hle, Hlt. lia.
Qed.

Lemma lt_quot_minutes (d : Z) :
  Js.lt (Js.quot (Js.Num (inject_Z d)) 60000) 5 = (d <? 5 * 60000)%Z.
Proof.
  unfold Js.lt, Js.quot.
  destruct (Z.ltb_spec d (5 * 60000)) as [Hlt | Hge].
  - apply negb_true_iff, not_true_iff_false. intro H.
    apply Qle_bool_iff in H. unfold Qle in H. simpl in H. lia.
  - apply negb_false_iff, Qle_bool_iff. unfold Qle. simpl. lia.
Qed.

Lemma skipn_cons_nth_error {A : Type} (l : list A) :
  forall i x rest,
    skipn i l = x :: rest ->
    nth_error l i = Some x /\ skipn (S i) l = rest.
Proof.
  induction l as [| y l IH]; intros i x rest H.
  - destruct i; discriminate.
  - destruct i as [| i].
    + simpl in H. injection H as -> ->. auto.
    + simpl in H. apply IH in H. exact H.
Qed.

(* ================================================================== *)
(** ** The forward builder *)
(* ================================================================== *)

Section ForwardFacts.
Variable parse : string -> option Z.

(** The loop over the tasks computes [Forward.timeline]. *)
Lemma forward_forEach_timeline (legs : list Leg) :
  forall tasks rest i clock schedule,
    skipn i legs = rest ->
    (List.length tasks <= List.length rest)%nat ->
    Forward.forEach parse legs tasks i clock schedule
    = Js.Ok (schedule ++ Forward.timeline parse clock tasks rest).
Proof.
  induction tasks as [| task tasks IH]; intros rest i clock schedule Hskip Hlen.
  - simpl. now rewrite app_nil_r.
  - destruct rest as [| leg rest]; [simpl in Hlen; lia |].
    apply skipn_cons_nth_error in Hskip. destruct Hskip as [Hnth Hskip].
    simpl. rewrite Hnth.
    rewrite (IH rest); [| exact Hskip | simpl in Hlen; lia].
    now rewrite <- app_assoc.
Qed.

(** A missing leg makes the loop raise. *)
Lemma forward_forEach_throw (legs : list Leg) :
  forall tasks i clock schedule,
    (i <= List.length legs < i + List.length tasks)%nat ->
    Forward.forEach parse legs tasks i clock schedule = Js.Throw Js.TypeError.
Proof.
  induction tasks as [| task tasks IH]; intros i clock schedule Hlen.
  - simpl in Hlen. exfalso. lia.
  - simpl. destruct (nth_error legs i) as [leg |] eqn:E; [| reflexivity].
    apply IH. simpl in Hlen.
    assert (i < List.length legs)%nat by (apply nth_error_Some; congruence).
    lia.
Qed.

Lemma forward_createTimeAwareSchedule_ok (tasks : list Task.t) (route : Route)
      (userLocation : LatLng) (currentTime : Js.Date) :
  (List.length tasks <= List.length (legs route))%nat ->
  Forward.createTimeAwareSchedule parse tasks route userLocation currentTime
  = Js.Ok (Forward.timeline parse currentTime tasks (legs route)).
Proof.
  intro Hlen. unfold Forward.createTimeAwareSchedule.
  now rewrite (forward_forEach_timeline (legs route) tasks (rest := legs route)).
Qed.

Lemma forward_timeline_length :
  forall tasks rest clock,
    (List.length tasks <= List.length rest)%nat ->
    List.length (Forward.timeline parse clock tasks rest) = List.length tasks.
Proof.
  induction tasks as [| task tasks IH]; intros rest clock Hlen; [reflexivity |].
  destruct rest as [| leg rest]; simpl in *; [lia |].
  rewrite IH; [reflexivity | lia].
Qed.

Lemma forward_endTime (task : Task.t) (leg : Leg) (clock : Js.Date) :
  Forward.endTime (Forward.scheduleItem parse task leg clock)
  = Js.add (Js.add clock (Some (Js.ceilDiv60 (value leg) * 60000)%Z))
           (durationMs (Task.durationMinutes task)).
Proof.
  unfold Forward.scheduleItem, Js.newDate, Js.getTime; simpl.
  now replace (Js.ceilDiv60 (value leg) * 60 * 1000)%Z
    with (Js.ceilDiv60 (value leg) * 60000)%Z by lia.
Qed.

(** The clock of the specification, seen from the second stop. *)
Lemma clockAt_cons (start : option Z) (task : Task.t) (leg : Leg)
      (tasks : list Task.t) (rest : list Leg) :
  forall k,
    Forward.clockAt start (task :: tasks) (leg :: rest) (S k)
    = Forward.clockAt
        (Forward.endTime (Forward.scheduleItem parse task leg start))
        tasks rest k.
Proof.
  induction k as [| k IH].
  - rewrite forward_endTime. reflexivity.
  - change (Forward.clockAt start (task :: tasks) (leg :: rest) (S (S k)))
      with (match nth_error tasks k, nth_error rest k with
            | Some t, Some l =>
                Js.add (Js.add (Forward.clockAt start (task :: tasks)
                                                (leg :: rest) (S k))
                               (Some (Js.ceilDiv60 (value l) * 60000)%Z))
                       (durationMs (Task.durationMinutes t))
            | _, _ => None
            end).
    rewrite IH. reflexivity.
Qed.

(** Stop [i] of the timeline is the item built when the clock of the
    specification shows [clockAt ... i]. *)
Lemma forward_timeline_nth :
  forall tasks rest clock i task leg,
    nth_error tasks i = Some task -> nth_error rest i = Some leg ->
    nth_error (Forward.timeline parse clock tasks rest) i
    = Some (Forward.scheduleItem parse task leg
              (Forward.clockAt clock tasks rest i)).
Proof.
  induction tasks as [| t0 tasks IH]; intros rest clock i task leg Ht Hl.
  - destruct i; discriminate.
  - destruct rest as [| l0 rest]; [destruct i; discriminate |].
    destruct i as [| i].
    + simpl in Ht, Hl. injection Ht as ->. injection Hl as ->. reflexivity.
    + simpl in Ht, Hl. rewrite clockAt_cons.
      simpl. apply IH; assumption.
Qed.

Lemma forward_timeline_In :
  forall tasks rest clock s,
    In s (Forward.timeline parse clock tasks rest) ->
    exists task leg clock', s = Forward.scheduleItem parse task leg clock'.
Proof.
  induction tasks as [| t0 tasks IH]; intros rest clock s Hin; [contradiction |].
  destruct rest as [| l0 rest]; [contradiction |].
  destruct Hin as [<- | Hin]; [eauto | eapply IH; eassumption].
Qed.

End ForwardFacts.

(* ================================================================== *)
(** ** The backward builder *)
(* ================================================================== *)

Section BackwardFacts.
Variable parse : string -> option Z.

(** The loop over the tasks computes [Backward.timeline]. *)
Lemma backward_forEach_timeline (legs : list Leg) :
  forall tasks rest i schedule,
    skipn i legs = rest ->
    (List.length tasks <= List.length rest)%nat ->
    Backward.forEach parse legs tasks i schedule
    = Js.Ok (schedule ++ Backward.timeline parse tasks rest).
Proof.
  induction tasks as [| task tasks IH]; intros rest i schedule Hskip Hlen.
  - simpl. now rewrite app_nil_r.
  - destruct rest as [| leg rest]; [simpl in Hlen; lia |].
    apply skipn_cons_nth_error in Hskip. destruct Hskip as [Hnth Hskip].
    simpl. rewrite Hnth.
    rewrite (IH rest); [| exact Hskip | simpl in Hlen; lia].
    now rewrite <- app_assoc.
Qed.

(** A missing leg makes the loop raise. *)
Lemma backward_forEach_throw (legs : list Leg) :
  forall tasks i schedule,
    (i <= List.length legs < i + List.length tasks)%nat ->
    Backward.forEach parse legs tasks i schedule = Js.Throw Js.TypeError.
Proof.
  induction tasks as [| task tasks IH]; intros i schedule Hlen.
  - simpl in Hlen. exfalso. lia.
  - simpl. destruct (nth_error legs i) as [leg |] eqn:E; [| reflexivity].
    apply IH. simpl in Hlen.
    assert (i < List.length legs)%nat by (apply nth_error_Some; congruence).
    lia.
Qed.

Lemma backward_createTimeAwareSchedule_ok (tasks : list Task.t)
      (route : Route) :
  (List.length tasks <= List.length (legs route))%nat ->
  Backward.createTimeAwareSchedule parse tasks route
  = Js.Ok (Backward.timeline parse tasks (legs route)).
Proof.
  intro Hlen. unfold Backward.createTimeAwareSchedule.
  now rewrite (backward_forEach_timeline (legs route) tasks (rest := legs route)).
Qed.

Lemma backward_timeline_length :
  forall tasks rest,
    (List.length tasks <= List.length rest)%nat ->
    List.length (Backward.timeline parse tasks rest) = List.length tasks.
Proof.
  induction tasks as [| task tasks IH]; intros rest Hlen; [reflexivity |].
  destruct rest as [| leg rest]; simpl in *; [lia |].
  rewrite IH; [reflexivity | lia].
Qed.

Lemma backward_timeline_nth :
  forall tasks rest i task leg,
    nth_error tasks i = Some task -> nth_error rest i = Some leg ->
    nth_error (Backward.timeline parse tasks rest) i
    = Some (Backward.scheduleItem parse task leg).
Proof.
  induction tasks as [| t0 tasks IH]; intros rest i task leg Ht Hl.
  - destruct i; discriminate.
  - destruct rest as [| l0 rest]; [destruct i; discriminate |].
    destruct i as [| i]; simpl in Ht, Hl.
    + injection Ht as ->. injection Hl as ->. reflexivity.
    + simpl. apply IH; assumption.
Qed.

(** The loop sees a task only through the item built for it. *)
Lemma backward_forEach_map (f : Task.t -> Task.t) (legs : list Leg) :
  (forall task leg,
      Backward.scheduleItem parse (f task) leg
      = Backward.scheduleItem parse task leg) ->
  forall tasks i schedule,
    Backward.forEach parse legs (map f tasks) i schedule
    = Backward.forEach parse legs tasks i schedule.
Proof.
  intros Hf. induction tasks as [| task tasks IH]; intros i schedule.
  - reflexivity.
  - simpl. destruct (nth_error legs i) as [leg |]; [| reflexivity].
    rewrite Hf. apply IH.
Qed.

Lemma scheduleItem_zeroAsMissing (task : Task.t) (leg : Leg) :
  Backward.scheduleItem parse (zeroAsMissing task) leg
  = Backward.scheduleItem parse task leg.
Proof.
  unfold zeroAsMissing.
  destruct (Task.durationMinutes task) as [| | m] eqn:E; try reflexivity.
  destruct m; try reflexivity.
  unfold Backward.scheduleItem, withoutDuration; simpl. now rewrite E.
Qed.

End BackwardFacts.

(* ================================================================== *)
(** ** The timeline builders: results *)
(* ================================================================== *)

Lemma forward_clockAt_valid (start : Z) (tasks : list Task.t)
      (rest : list Leg) :
  List.length rest = List.length tasks ->
  (forall task, In task tasks ->
                exists m, Task.durationMinutes task = DurNum m) ->
  forall i, (i <= List.length tasks)%nat ->
            exists c, Forward.clockAt (Some start) tasks rest i = Some c.
Proof.
  intros Hlen Hdur. induction i as [| k IH]; intro Hi.
  - now exists start.
  - destruct IH as (c & Hc); [lia |].
    destruct (nth_error tasks k) as [task |] eqn:Et;
      [| apply nth_error_None in Et; lia].
    destruct (nth_error rest k) as [leg |] eqn:El;
      [| apply nth_error_None in El; lia].
    destruct (Hdur task (nth_error_In _ _ Et)) as (m & Hm).
    simpl. rewrite Et, El, Hc, Hm. simpl. eauto.
Qed.

(** C3, what holds and where it fails.  From a valid start time, with as
    many legs as tasks and a numeric [durationMinutes] on every task, the
    forward builder returns one item per task and the items satisfy the
    recurrence: there are clock values, the first of them the start time,
    such that stop [i] is reached at [clock i] plus the travel minutes of
    leg [i], which are the least whole number of minutes covering the
    seconds of the leg and are recorded in the item, is left at the
    arrival plus the task's duration, and [clock (i + 1)] is that
    departure; all times are in milliseconds.  For a task without
    [durationMinutes] the recurrence fails: reached at 08:02 over a
    61-second leg from 08:00, the stop is left at an Invalid Date, not at
    08:32, and the next stop has no valid time at all. *)
Theorem C3_forward_recurrence :
  (forall (parse : string -> option Z) (tasks : list Task.t) (route : Route)
          (userLocation : LatLng) (start : Z),
      List.length (legs route) = List.length tasks ->
      (forall task, In task tasks ->
                    exists m, Task.durationMinutes task = DurNum m) ->
      exists (schedule : list Forward.ScheduleItem) (clock : nat -> Z),
        Forward.createTimeAwareSchedule parse tasks route userLocation
                                        (Some start)
        = Js.Ok schedule
        /\ List.length schedule = List.length tasks
        /\ clock O = start
        /\ (forall i task leg m,
               nth_error tasks i = Some task ->
               nth_error (legs route) i = Some leg ->
               Task.durationMinutes task = DurNum m ->
               exists s travelMinutes,
                 nth_error schedule i = Some s
                 /\ Forward.taskId s = Task.id task
                 /\ Forward.travelMinutes s = travelMinutes
                 /\ (60 * (travelMinutes - 1) < value leg
                     <= 60 * travelMinutes)%Z
                 /\ Forward.startTime s
                    = Some (clock i + travelMinutes * 60000)%Z
                 /\ Forward.endTime s
                    = Some (clock i + travelMinutes * 60000 + m * 60000)%Z
                 /\ clock (S i)
                    = (clock i + travelMinutes * 60000 + m * 60000)%Z))
  /\ (let task := withoutDuration (Fixture.flexibleAt "a" 1) in
      match Forward.createTimeAwareSchedule Fixture.parse
              [task; Fixture.flexibleAt "b" 2]
              (mkRoute [mkLeg 61; mkLeg 120]) Fixture.origin
              (Some 1771077600000%Z)
      with
      | Js.Ok schedule =>
          map (fun s => (Forward.travelMinutes s, Forward.startTime s,
                         Forward.endTime s)) schedule
          = [(2%Z, Some 1771077720000%Z, None); (2%Z, None, None)]
      | Js.Throw _ => False
      end
      /\ (1771077720000 + 30 * 60000 = 1771079520000)%Z).
Proof.
  split; [| split; reflexivity].
  intros parse tasks route userLocation start Hlen Hdur.
  set (clock := fun i =>
                  match Forward.clockAt (Some start) tasks (legs route) i with
                  | Some c => c
                  | None => 0%Z
                  end).
  exists (Forward.timeline parse (Some start) tasks (legs route)), clock.
  split; [apply forward_createTimeAwareSchedule_ok; lia |].
  split; [apply forward_timeline_length; lia |].
  split; [reflexivity |].
  intros i task leg m Ht Hl Hm.
  assert (Hi : (i < List.length tasks)%nat)
    by (apply nth_error_Some; congruence).
  destruct (forward_clockAt_valid start tasks (legs route) Hlen Hdur
                                  (i := i)) as (c & Hc); [lia |].
  exists (Forward.scheduleItem parse task leg
            (Forward.clockAt (Some start) tasks (legs route) i)),
         (Js.ceilDiv60 (value leg)).
  split; [apply forward_timeline_nth; assumption |].
  split; [reflexivity |].
  split; [reflexivity |].
  split; [apply ceilDiv60_bounds |].
  assert (Hclock : clock i = c) by (unfold clock; now rewrite Hc).
  split.
  { unfold Forward.scheduleItem, Js.newDate, Js.getTime; simpl.
    rewrite Hc, Hclock. simpl. f_equal. lia. }
  split.
  { rewrite forward_endTime, Hc, Hm, Hclock. simpl. f_equal. lia. }
  unfold clock at 1. simpl Forward.clockAt.
  rewrite Ht, Hl, Hc, Hm, Hclock. simpl. lia.
Qed.

(** A run of C3: a 61-second leg and a 45-minute errand, then a two-minute
    leg and a half-hour errand, starting at 08:00; the first stop is
    reached at 08:02 and left at 08:47. *)
Lemma C3_forward_recurrence_witness :
  let tasks := [Task.mk "a" "a" "" 1 0 (DurNum 45) ByNull false;
                Fixture.flexibleAt "b" 2] in
  let route := mkRoute [mkLeg 61; mkLeg 120] in
  exists schedule s,
    Forward.createTimeAwareSchedule Fixture.parse tasks route Fixture.origin
                                    (Some 1771077600000%Z)
    = Js.Ok schedule
    /\ nth_error schedule 0 = Some s
    /\ Forward.startTime s = Some 1771077720000%Z
    /\ Forward.endTime s = Some 1771080420000%Z.
Proof.
  intros tasks route.
  destruct (proj1 C3_forward_recurrence Fixture.parse tasks route
                  Fixture.origin 1771077600000%Z)
    as (schedule & clock & Hrun & _ & Hclock & Hstops).
  - reflexivity.
  - intros task [<- | [<- | []]]; eexists; reflexivity.
  - destruct (Hstops 0%nat (Task.mk "a" "a" "" 1 0 (DurNum 45) ByNull false)
                     (mkLeg 61) 45%Z eq_refl eq_refl eq_refl)
      as (s & tm & Hs & _ & _ & Hbounds & Hstart & Hend & _).
    exists schedule, s.
    split; [exact Hrun |]. split; [exact Hs |].
    change (value (mkLeg 61)) with 61%Z in Hbounds.
    assert (tm = 2%Z) by lia. subst tm.
    rewrite Hclock in Hstart, Hend.
    split; [exact Hstart | exact Hend].
Defined.

Example forward_run :
  match Forward.createTimeAwareSchedule Fixture.parse
          [Task.mk "a" "a" "" 1 0 (DurNum 45) ByNull false;
           Fixture.flexibleAt "b" 2]
          (mkRoute [mkLeg 61; mkLeg 120]) Fixture.origin
          (Some 1771077600000%Z)
  with
  | Js.Ok schedule =>
      map (fun s => (Forward.travelMinutes s, Forward.startTime s,
                     Forward.endTime s)) schedule
      = [(2, Some 1771077720000, Some 1771080420000);
         (2, Some 1771080540000, Some 1771082340000)]%Z
  | Js.Throw _ => False
  end.
Proof. reflexivity. Qed.

Example empty_schedules :
  calculateOptimalRoute Fixture.parse Fixture.distance [] Fixture.origin = []
  /\ Forward.createTimeAwareSchedule Fixture.parse [] (mkRoute [])
       Fixture.origin (Some 1771077600000%Z)
     = Js.Ok []
  /\ Backward.createTimeAwareSchedule Fixture.parse [] (mkRoute [])
     = Js.Ok [].
Proof. repeat split. Qed.

(** C8. With fewer legs than tasks neither builder returns a schedule: the
    loop reaches a task whose leg is missing and reading that leg raises a
    TypeError, which the caller receives in place of any schedule. *)
Theorem C8_short_legs_raise
        (parse : string -> option Z) (tasks : list Task.t) (route : Route)
        (userLocation : LatLng) (currentTime : Js.Date) :
  (List.length (legs route) < List.length tasks)%nat ->
  Forward.createTimeAwareSchedule parse tasks route userLocation currentTime
  = Js.Throw Js.TypeError
  /\ Backward.createTimeAwareSchedule parse tasks route
     = Js.Throw Js.TypeError.
Proof.
  intro Hlen. split.
  - apply forward_forEach_throw. lia.
  - apply backward_forEach_throw. lia.
Qed.

(** A run of C8: two tasks and a single leg. *)
Lemma C8_short_legs_raise_witness :
  Forward.createTimeAwareSchedule Fixture.parse
    [Fixture.flexibleAt "a" 1; Fixture.flexibleAt "b" 2]
    (mkRoute [mkLeg 61]) Fixture.origin (Some 0%Z)
  = Js.Throw Js.TypeError
  /\ Backward.createTimeAwareSchedule Fixture.parse
       [Fixture.flexibleAt "a" 1; Fixture.flexibleAt "b" 2]
       (mkRoute [mkLeg 61])
     = Js.Throw Js.TypeError.
Proof.
  apply (C8_short_legs_raise Fixture.parse
           [Fixture.flexibleAt "a" 1; Fixture.flexibleAt "b" 2]
           (mkRoute [mkLeg 61]) Fixture.origin (Some 0%Z)).
  simpl. lia.
Defined.

(** C4. The backward builder, given a leg for every task, returns one item
    per task.  For a fixed stop with a deadline the arrival is the deadline
    minus the five-minute buffer and the departure is that arrival minus
    the travel minutes of the leg, the seconds of the leg divided by sixty
    and rounded up; for a flexible stop departure and arrival are both
    null. *)
Theorem C4_backward_from_deadline
        (parse : string -> option Z) (tasks : list Task.t) (route : Route) :
  (List.length tasks <= List.length (legs route))%nat ->
  exists schedule,
    Backward.createTimeAwareSchedule parse tasks route = Js.Ok schedule
    /\ List.length schedule = List.length tasks
    /\ (forall i task leg,
           nth_error tasks i = Some task ->
           nth_error (legs route) i = Some leg ->
           exists s,
             nth_error schedule i = Some s
             /\ Backward.taskId s = Task.id task
             /\ Backward.travelMinutes s = Js.ceilDiv60 (value leg)
             /\ (60 * (Backward.travelMinutes s - 1) < value leg
                 <= 60 * Backward.travelMinutes s)%Z
             /\ (Task.fixedTime task = true ->
                 truthy (Task.mustArriveBy task) = true ->
                 forall T,
                   dateOf parse (Task.mustArriveBy task) = Some T ->
                   Backward.arriveTime s = Some (Some (T - 5 * 60000)%Z)
                   /\ Backward.departTime s
                      = Some (Some (T - 5 * 60000
                                    - Backward.travelMinutes s * 60000)%Z))
             /\ (Task.fixedTime task = false ->
                 Backward.departTime s = None
                 /\ Backward.arriveTime s = None)).
Proof.
  intro Hlen.
  exists (Backward.timeline parse tasks (legs route)).
  split; [apply backward_createTimeAwareSchedule_ok; exact Hlen |].
  split; [apply backward_timeline_length; exact Hlen |].
  intros i task leg Ht Hl.
  exists (Backward.scheduleItem parse task leg).
  split; [apply backward_timeline_nth; assumption |].
  split; [reflexivity |].
  split; [reflexivity |].
  split; [apply ceilDiv60_bounds |].
  split.
  - intros Hfixed Htruthy T HT.
    unfold Backward.scheduleItem, Backward.BUFFER_MINUTES,
      Js.newDate, Js.getTime; simpl.
    rewrite Hfixed, Htruthy, HT. cbn [andb Js.sub].
    split; do 2 f_equal; lia.
  - intro Hflex. unfold Backward.scheduleItem; simpl.
    rewrite Hflex. simpl. auto.
Qed.

(** A run of C4: a stop due at 09:00 reached over a 61-second leg, then a
    flexible stop. *)
Lemma C4_backward_from_deadline_witness :
  let tasks := [Fixture.fixedAt "b" 9 Fixture.at0900;
                Fixture.flexibleAt "a" 1] in
  let route := mkRoute [mkLeg 61; mkLeg 600] in
  exists schedule,
    Backward.createTimeAwareSchedule Fixture.parse tasks route
    = Js.Ok schedule
    /\ List.length schedule = 2%nat.
Proof.
  intros tasks route.
  destruct (C4_backward_from_deadline Fixture.parse tasks route)
    as (schedule & Hrun & Hlen & _).
  - simpl. lia.
  - exists schedule. split; [exact Hrun | exact Hlen].
Defined.

Example backward_run :
  match Backward.createTimeAwareSchedule Fixture.parse
          [Fixture.fixedAt "b" 9 Fixture.at0900; Fixture.flexibleAt "a" 1]
          (mkRoute [mkLeg 61; mkLeg 600])
  with
  | Js.Ok schedule =>
      map (fun s => (Backward.departTime s, Backward.arriveTime s,
                     Backward.travelMinutes s)) schedule
      = [(Some (Some 1771080780000), Some (Some 1771080900000), 2);
         (None, None, 10)]%Z
  | Js.Throw _ => False
  end.
Proof. reflexivity. Qed.

(** C10. In the backward builder a task whose duration is exactly 0 gets an
    item with [durationMinutes] 30, the item the same task would get with
    the field missing; replacing every zero duration of a task list by a
    missing one leaves the result of the builder unchanged. *)
Theorem C10_zero_duration_reported_as_30
        (parse : string -> option Z) (tasks : list Task.t) (route : Route) :
  Backward.createTimeAwareSchedule parse (map zeroAsMissing tasks) route
  = Backward.createTimeAwareSchedule parse tasks route
  /\ (forall schedule i task,
         Backward.createTimeAwareSchedule parse tasks route = Js.Ok schedule ->
         nth_error tasks i = Some task ->
         Task.durationMinutes task = DurNum 0 ->
         exists s leg,
           nth_error schedule i = Some s
           /\ nth_error (legs route) i = Some leg
           /\ Backward.durationMinutes s = 30%Z
           /\ s = Backward.scheduleItem parse (withoutDuration task) leg).
Proof.
  split.
  - unfold Backward.createTimeAwareSchedule.
    apply backward_forEach_map. apply scheduleItem_zeroAsMissing.
  - intros schedule i task Hrun Ht Hzero.
    destruct (Nat.le_gt_cases (List.length tasks) (List.length (legs route)))
      as [Hlen | Hshort].
    + rewrite (backward_createTimeAwareSchedule_ok parse tasks route Hlen) in Hrun.
      injection Hrun as <-.
      assert (Hi : (i < List.length (legs route))%nat).
      { apply Nat.lt_le_trans with (List.length tasks); [| exact Hlen].
        apply nth_error_Some. congruence. }
      destruct (nth_error (legs route) i) as [leg |] eqn:Hl;
        [| apply nth_error_Some in Hi; congruence].
      exists (Backward.scheduleItem parse task leg), leg.
      split; [apply backward_timeline_nth; assumption |].
      split; [reflexivity |].
      split.
      * unfold Backward.scheduleItem; simpl. now rewrite Hzero.
      * rewrite <- (scheduleItem_zeroAsMissing parse task leg).
        unfold zeroAsMissing. now rewrite Hzero.
    + unfold Backward.createTimeAwareSchedule in Hrun.
      rewrite backward_forEach_throw in Hrun by lia. discriminate.
Qed.

(** A run of C10: a stop with duration 0. *)
Lemma C10_zero_duration_reported_as_30_witness :
  let task := Task.mk "a" "a" "" 1 0 (DurNum 0) ByNull false in
  exists s leg,
    nth_error [Backward.scheduleItem Fixture.parse task (mkLeg 61)] 0 = Some s
    /\ nth_error [mkLeg 61] 0 = Some leg
    /\ Backward.durationMinutes s = 30%Z
    /\ s = Backward.scheduleItem Fixture.parse (withoutDuration task) leg.
Proof.
  intro task.
  apply (proj2 (C10_zero_duration_reported_as_30
                  Fixture.parse [task] (mkRoute [mkLeg 61]))
               [Backward.scheduleItem Fixture.parse task (mkLeg 61)]
               0%nat task);
    reflexivity.
Defined.

(** C9, evaluated where it fails.  A stop without [durationMinutes] reached
    over a 61-second leg from 08:00, followed by a half-hour stop: the
    forward builder arrives at 08:02 and never adds the default of 30
    minutes; the departure is an Invalid Date and so is every later time.
    The backward builder reports 30 minutes for the same task. *)
Theorem C9_forward_builder_lacks_default :
  let task := withoutDuration (Fixture.flexibleAt "a" 1) in
  let tasks := [task; Fixture.flexibleAt "b" 2] in
  let route := mkRoute [mkLeg 61; mkLeg 120] in
  match Forward.createTimeAwareSchedule Fixture.parse tasks route
          Fixture.origin (Some 1771077600000%Z)
  with
  | Js.Ok schedule =>
      map (fun s => (Forward.startTime s, Forward.endTime s)) schedule
      = [(Some 1771077720000%Z, None); (None, None)]
  | Js.Throw _ => False
  end
  /\ Js.add (Some 1771077720000%Z) (Some (30 * 60000)%Z)
     = Some 1771079520000%Z
  /\ Backward.durationMinutes
       (Backward.scheduleItem Fixture.parse task (mkLeg 61))
     = 30%Z.
Proof. repeat split. Qed.

(* ================================================================== *)
(** ** Status classification *)
(* ================================================================== *)

Lemma threshold_classifies (a t : Z) :
  classifies (if (t <? a)%Z then LATE
              else if (t - a <? 5 * 60000)%Z then TIGHT else ON_TIME) a t.
Proof.
  unfold classifies.
  destruct (Z.ltb_spec t a); [| destruct (Z.ltb_spec (t - a) (5 * 60000))];
    (split; [discriminate |]);
    (split; [| split]); split; intro H';
    try discriminate; try reflexivity; lia.
Qed.

Lemma forward_isLate (parse : string -> option Z) (task : Task.t)
      (leg : Leg) (clock : Js.Date) :
  let s := Forward.scheduleItem parse task leg clock in
  Forward.isLate s
  = match Forward.deadline s with
    | Some d => Some (Js.dateGt (Forward.startTime s) d)
    | None => None
    end.
Proof. unfold Forward.scheduleItem; simpl. now destruct (Task.fixedTime task). Qed.

Lemma forward_statusIcon_classifies (s : Forward.ScheduleItem) (a t : Z) :
  Forward.isFixed s = true ->
  Forward.startTime s = Some a ->
  Forward.deadline s = Some (Some t) ->
  Forward.isLate s = Some (Js.dateGt (Forward.startTime s) (Some t)) ->
  Forward.statusIcon s
  = if (t <? a)%Z then LATE
    else if (t - a <? 5 * 60000)%Z then TIGHT else ON_TIME.
Proof.
  intros Hfixed Hstart Hdeadline Hlate.
  unfold Forward.statusIcon, Forward.minutesBeforeDeadline.
  rewrite Hfixed, Hlate, Hdeadline, Hstart.
  unfold Js.dateGt, Js.dateDiff, Js.sub, Js.getTime.
  now rewrite lt_quot_minutes.
Qed.

Lemma backward_statusIcon_classifies (s : Backward.ScheduleItem) (a t : Z) :
  Backward.isFixed s = true ->
  Backward.arriveTime s = Some (Some a) ->
  Backward.deadline s = Some (Some t) ->
  Backward.statusIcon s
  = if (t <? a)%Z then LATE
    else if (t - a <? 5 * 60000)%Z then TIGHT else ON_TIME.
Proof.
  intros Hfixed Harrive Hdeadline.
  unfold Backward.statusIcon.
  rewrite Hfixed, Harrive, Hdeadline.
  unfold Js.dateGt, Js.dateDiff, Js.sub, Js.getTime.
  now rewrite lt_quot_minutes.
Qed.

(** C2, as the code has it.  A fixed stop of a schedule the forward builder
    returned, reached at [a] with deadline [t], gets exactly one of three
    statuses: LATE when [a] is after [t], TIGHT when the slack [t - a] is
    at least zero and under five minutes, ON TIME when the slack is five
    minutes or more; so one minute after the deadline is LATE, three
    minutes before is TIGHT and ten minutes before is ON TIME.  The status
    of the backward schedule classifies its arrival the same way.  A stop
    that is not fixed gets no status in either. *)
Theorem C2_status_classification (parse : string -> option Z) :
  (forall tasks route userLocation currentTime schedule s,
      Forward.createTimeAwareSchedule parse tasks route userLocation
                                      currentTime
      = Js.Ok schedule ->
      In s schedule ->
      (Forward.isFixed s = false -> Forward.statusIcon s = NoIcon)
      /\ (Forward.isFixed s = true ->
          forall a t,
            Forward.startTime s = Some a ->
            Forward.deadline s = Some (Some t) ->
            classifies (Forward.statusIcon s) a t
            /\ (a = (t + 60000)%Z -> Forward.statusIcon s = LATE)
            /\ (a = (t - 3 * 60000)%Z -> Forward.statusIcon s = TIGHT)
            /\ (a = (t - 10 * 60000)%Z -> Forward.statusIcon s = ON_TIME)))
  /\ (forall s : Backward.ScheduleItem,
         (Backward.isFixed s = false -> Backward.statusIcon s = NoIcon)
         /\ (Backward.isFixed s = true ->
             forall a t,
               Backward.arriveTime s = Some (Some a) ->
               Backward.deadline s = Some (Some t) ->
               classifies (Backward.statusIcon s) a t)).
Proof.
  split.
  - intros tasks route userLocation currentTime schedule s Hrun Hin.
    split.
    + intro Hflex. unfold Forward.statusIcon. now rewrite Hflex.
    + intros Hfixed a t Hstart Hdeadline.
      assert (Hbuilt : exists task leg clock,
                 s = Forward.scheduleItem parse task leg clock).
      { destruct (Nat.le_gt_cases (List.length tasks)
                                  (List.length (legs route)))
          as [Hlen | Hshort].
        - rewrite (forward_createTimeAwareSchedule_ok
                     parse tasks route userLocation currentTime Hlen) in Hrun.
          injection Hrun as <-.
          eapply forward_timeline_In. exact Hin.
        - unfold Forward.createTimeAwareSchedule in Hrun.
          rewrite forward_forEach_throw in Hrun by lia. discriminate. }
      destruct Hbuilt as (task & leg & clock & Hs).
      assert (Hlate : Forward.isLate s
                      = Some (Js.dateGt (Forward.startTime s) (Some t))).
      { rewrite Hs. rewrite forward_isLate. rewrite <- Hs.
        now rewrite Hdeadline. }
      rewrite (forward_statusIcon_classifies s Hfixed Hstart Hdeadline Hlate).
      split; [apply threshold_classifies |].
      split; [| split]; intros ->.
      * now destruct (Z.ltb_spec t (t + 60000)); [| lia].
      * destruct (Z.ltb_spec t (t - 3 * 60000)); [lia |].
        now destruct (Z.ltb_spec (t - (t - 3 * 60000)) (5 * 60000)); [| lia].
      * destruct (Z.ltb_spec t (t - 10 * 60000)); [lia |].
        now destruct (Z.ltb_spec (t - (t - 10 * 60000)) (5 * 60000)); [lia |].
  - intro s. split.
    + intro Hflex. unfold Backward.statusIcon. now rewrite Hflex.
    + intros Hfixed a t Harrive Hdeadline.
      rewrite (backward_statusIcon_classifies s Hfixed Harrive Hdeadline).
      apply threshold_classifies.
Qed.

(** A run of C2: a stop due at 09:00, left for at 08:40 over a 61-second
    leg, so reached at 08:42. *)
Lemma C2_status_classification_witness :
  let task := Fixture.fixedAt "b" 9 Fixture.at0900 in
  let s := Forward.scheduleItem Fixture.parse task (mkLeg 61)
                                (Some 1771080000000%Z) in
  classifies (Forward.statusIcon s) 1771080120000 1771081200000
  /\ Forward.statusIcon s = ON_TIME.
Proof.
  intros task s.
  destruct (proj1 (C2_status_classification Fixture.parse)
                  [task] (mkRoute [mkLeg 61]) Fixture.origin
                  (Some 1771080000000%Z) [s] s)
    as [_ Hfixed].
  - reflexivity.
  - simpl. auto.
  - destruct (Hfixed eq_refl 1771080120000%Z 1771081200000%Z)
      as (Hclass & _); [reflexivity | reflexivity |].
    split; [exact Hclass | reflexivity].
Defined.

(** C2 as stated does not hold at a slack of exactly five minutes: a stop
    due at 09:00 and reached at 08:55 is shown ON TIME by the forward
    schedule, where the claim puts it in TIGHT; the backward schedule,
    which always arrives five minutes early, shows ON TIME as well. *)
Lemma C2_five_minutes_slack_is_on_time :
  let task := Fixture.fixedAt "b" 9 Fixture.at0900 in
  let t := 1771081200000%Z in
  let a := (t - 5 * 60000)%Z in
  let s := Forward.scheduleItem Fixture.parse task (mkLeg 61)
                                (Some (a - 2 * 60000)%Z) in
  Forward.createTimeAwareSchedule Fixture.parse [task] (mkRoute [mkLeg 61])
                                  Fixture.origin (Some (a - 2 * 60000)%Z)
  = Js.Ok [s]
  /\ Forward.isFixed s = true
  /\ Forward.startTime s = Some a
  /\ Forward.deadline s = Some (Some t)
  /\ (0 <= t - a <= 5 * 60000)%Z
  /\ statusAsSpecified a t = TIGHT
  /\ Forward.statusIcon s = ON_TIME
  /\ Forward.statusIcon s <> statusAsSpecified a t
  /\ Backward.statusIcon
       (Backward.scheduleItem Fixture.parse task (mkLeg 61))
     = ON_TIME.
Proof.
  intros task t a s.
  repeat (split; [reflexivity |]).
  split; [subst a t; lia |].
  repeat (split; [reflexivity |]).
  split; [vm_compute; discriminate | reflexivity].
Qed.

Lemma malformed_fixedTime (parse : string -> option Z) (t : Task.t) :
  malformed parse t = true -> Task.fixedTime t = true.
Proof. unfold malformed. intro H. apply andb_true_iff in H. tauto. Qed.

(** C7, as the code has it.  A task flagged fixed whose deadline is missing
    or unusable does not stop the core.  The sequencer still returns a
    rearrangement of all the tasks, in which the task stands in the leading
    fixed block and not among the flexible tasks, since the split looks at
    [fixedTime] alone.  Both builders return a schedule whenever there is a
    leg for every task, and the backward builder gives such a task the null
    departure and arrival of a flexible stop when [mustArriveBy] is
    missing, null or empty.  The results are the order and the schedule:
    no warning accompanies them. *)
Theorem C7_malformed_task_stays_fixed
        (parse : string -> option Z)
        (computeDistanceBetween : LatLng -> LatLng -> Q)
        (tasks : list Task.t) (userLocation : LatLng) (m : Task.t) :
  In m tasks -> malformed parse m = true ->
  (calculateOptimalRoute parse computeDistanceBetween tasks userLocation
   = fixedTasks parse tasks
     ++ orderedFlexible parse computeDistanceBetween tasks userLocation
   /\ Permutation
        (calculateOptimalRoute parse computeDistanceBetween tasks userLocation)
        tasks
   /\ In m (fixedTasks parse tasks)
   /\ ~ In m (orderedFlexible parse computeDistanceBetween tasks userLocation))
  /\ (forall route currentTime,
         (List.length tasks <= List.length (legs route))%nat ->
         (exists schedule,
             Forward.createTimeAwareSchedule parse tasks route userLocation
                                             currentTime
             = Js.Ok schedule)
         /\ (exists schedule,
                Backward.createTimeAwareSchedule parse tasks route
                = Js.Ok schedule))
  /\ (forall leg,
         truthy (Task.mustArriveBy m) = false ->
         Backward.departTime (Backward.scheduleItem parse m leg) = None
         /\ Backward.arriveTime (Backward.scheduleItem parse m leg) = None
         /\ Backward.isFixed (Backward.scheduleItem parse m leg) = true).
Proof.
  intros Hin Hm.
  pose proof (malformed_fixedTime parse m Hm) as Hfixed.
  split; [split; [reflexivity | split; [apply calculateOptimalRoute_perm |]] |].
  - split.
    + apply (Permutation_in m (Permutation_sym (fixedTasks_perm parse tasks))).
      apply filter_In. tauto.
    + intro Hflex.
      pose proof (orderedFlexible_flexible parse computeDistanceBetween
                                           tasks userLocation) as Hall.
      rewrite Forall_forall in Hall. apply Hall in Hflex. congruence.
  - split.
    { intros route currentTime Hlen. split; eexists.
      - apply forward_createTimeAwareSchedule_ok. exact Hlen.
      - apply backward_createTimeAwareSchedule_ok. exact Hlen. }
    intros leg Hfalsy. unfold Backward.scheduleItem; simpl.
    rewrite Hfixed, Hfalsy. simpl. auto.
Qed.

(** A run of C7: a flexible stop next to the origin and a fixed stop
    without [mustArriveBy]. *)
Lemma C7_malformed_task_stays_fixed_witness :
  let m := Fixture.fixedAt "m" 9 ByAbsent in
  let tasks := [Fixture.flexibleAt "a" 1; m] in
  In m (fixedTasks Fixture.parse tasks)
  /\ Backward.arriveTime (Backward.scheduleItem Fixture.parse m (mkLeg 61))
     = None.
Proof.
  intros m tasks.
  destruct (C7_malformed_task_stays_fixed
              Fixture.parse Fixture.distance tasks Fixture.origin m)
    as [(_ & _ & Hin & _) [_ Hback]].
  - simpl. auto.
  - reflexivity.
  - split; [exact Hin |].
    destruct (Hback (mkLeg 61)) as (_ & Harrive & _); [reflexivity |].
    exact Harrive.
Defined.

(** C7 as stated does not hold: with a flexible stop next to the origin and
    a farther stop flagged fixed without a deadline, the code visits the
    malformed stop first, whereas treating it as flexible would visit it
    last. *)
Lemma C7_malformed_task_not_treated_as_flexible :
  let m := Fixture.fixedAt "m" 9 ByAbsent in
  let tasks := [Fixture.flexibleAt "a" 1; m] in
  malformed Fixture.parse m = true
  /\ map Task.id
         (calculateOptimalRoute Fixture.parse Fixture.distance tasks
                                Fixture.origin)
     = ["m"; "a"]%string
  /\ map Task.id
         (calculateOptimalRoute Fixture.parse Fixture.distance
            (map (treatedAsFlexible Fixture.parse) tasks) Fixture.origin)
     = ["a"; "m"]%string
  /\ map Task.id
         (calculateOptimalRoute Fixture.parse Fixture.distance tasks
                                Fixture.origin)
     <> map Task.id
            (calculateOptimalRoute Fixture.parse Fixture.distance
               (map (treatedAsFlexible Fixture.parse) tasks) Fixture.origin).
Proof.
  intros m tasks.
  split; [reflexivity |].
  split; [reflexivity |].
  split; [reflexivity |].
  vm_compute. discriminate.
Qed.


(* ================================================================== *)
(** ** More on the sort *)
(* ================================================================== *)

Section SortMore.
Context {A : Type}.
Variable comparefn : A -> A -> Js.number.

(** Sorting a list that is already in order returns it. *)
Lemma sort_sorted_id (l : list A) :
  StronglySorted (fun x y => Js.after comparefn x y = false) l ->
  Js.sort comparefn l = l.
Proof.
  induction 1 as [| x l Hs IH Hx]; [reflexivity |].
  simpl. rewrite IH.
  destruct l as [| y l]; [reflexivity |].
  simpl. inversion Hx as [| ? ? Hxy _]; subst. now rewrite Hxy.
Qed.

(** Elements that the comparator never separates strictly keep their
    order: [cls k] selects a class of elements, and on the elements that
    satisfy [P] no member of a class sorts strictly after another. *)
Section Classes.
Context {K : Type}.
Variable cls : K -> A -> bool.
Variable P : A -> Prop.
Hypothesis cls_not_after :
  forall k x y, P x -> P y -> cls k x = true -> cls k y = true ->
                Js.after comparefn x y = false.

Lemma filter_cls_insert (k : K) (x : A) (l : list A) :
  P x -> Forall P l ->
  filter (cls k) (Js.insert comparefn x l) = filter (cls k) (x :: l).
Proof.
  intros Px. induction l as [| y l IH]; intro Hl; [reflexivity |].
  inversion Hl as [| ? ? Py Hl']; subst.
  simpl. destruct (Js.after comparefn x y) eqn:E; [| reflexivity].
  simpl. rewrite (IH Hl'). simpl.
  destruct (cls k x) eqn:Ex, (cls k y) eqn:Ey; try reflexivity.
  rewrite (cls_not_after Px Py Ex Ey) in E. discriminate.
Qed.

Lemma filter_cls_sort (k : K) (l : list A) :
  Forall P l ->
  filter (cls k) (Js.sort comparefn l) = filter (cls k) l.
Proof.
  induction l as [| x l IH]; intro Hl; [reflexivity |].
  inversion Hl as [| ? ? Px Hl']; subst.
  simpl Js.sort. rewrite filter_cls_insert.
  - simpl. now rewrite (IH Hl').
  - exact Px.
  - apply sort_Forall. exact Hl'.
Qed.
End Classes.
End SortMore.

(* ================================================================== *)
(** ** More on the sequencer *)
(* ================================================================== *)

Section SequencerMore.
Variable parse : string -> option Z.
Variable computeDistanceBetween : LatLng -> LatLng -> Q.

Lemma byDistance_ordered (p : LatLng) (l : list Task.t) :
  StronglySorted
    (fun x y => Js.after (byDistance computeDistanceBetween p) x y = false)
    (Js.sort (byDistance computeDistanceBetween p) l).
Proof.
  pose proof (sort_byDistance_sorted computeDistanceBetween p l) as H.
  induction H as [| x l0 Hs IH Hx]; constructor; [exact IH |].
  eapply Forall_impl; [| exact Hx].
  intros y Hy. now apply notAfter_byDistance.
Qed.

Lemma byDeadline_ordered (tasks : list Task.t) :
  (forall t, In t tasks -> Task.fixedTime t = true ->
             dateOf parse (Task.mustArriveBy t) <> None) ->
  StronglySorted (fun x y => Js.after (byDeadline parse) x y = false)
                 (fixedTasks parse tasks).
Proof.
  intro Hok. pose proof (fixedTasks_sorted parse tasks Hok) as H.
  induction H as [| x l0 Hs IH Hx]; constructor; [exact IH |].
  eapply Forall_impl; [| exact Hx].
  intros y Hy. unfold deadlineLe in Hy.
  destruct (dateOf parse (Task.mustArriveBy x)) as [dx |] eqn:Ex; [| tauto].
  destruct (dateOf parse (Task.mustArriveBy y)) as [dy |] eqn:Ey; [| tauto].
  rewrite (after_byDeadline parse _ _ Ex Ey). apply Z.ltb_ge. exact Hy.
Qed.

Lemma filter_all {A : Type} (f : A -> bool) (l : list A) :
  Forall (fun x => f x = true) l -> filter f l = l.
Proof.
  induction 1 as [| x l Hx _ IH]; [reflexivity |].
  simpl. now rewrite Hx, IH.
Qed.

Lemma filter_none {A : Type} (f : A -> bool) (l : list A) :
  Forall (fun x => f x = false) l -> filter f l = [].
Proof.
  induction 1 as [| x l Hx _ IH]; [reflexivity |].
  simpl. now rewrite Hx, IH.
Qed.

(** X1. Running the sequencer on its own output changes nothing, provided
    each fixed task has a deadline that is a valid time. *)
Theorem calculateOptimalRoute_idempotent
        (tasks : list Task.t) (userLocation : LatLng) :
  (forall t, In t tasks -> Task.fixedTime t = true ->
             dateOf parse (Task.mustArriveBy t) <> None) ->
  calculateOptimalRoute parse computeDistanceBetween
    (calculateOptimalRoute parse computeDistanceBetween tasks userLocation)
    userLocation
  = calculateOptimalRoute parse computeDistanceBetween tasks userLocation.
Proof.
  intro Hok.
  set (F := fixedTasks parse tasks).
  set (X := orderedFlexible parse computeDistanceBetween tasks userLocation).
  assert (HF : Forall (fun t => Task.fixedTime t = true) F)
    by apply fixedTasks_fixed.
  assert (HX : Forall (fun t => Task.fixedTime t = false) X)
    by apply orderedFlexible_flexible.
  assert (HXn : Forall (fun t => negb (Task.fixedTime t) = true) X).
  { eapply Forall_impl; [| exact HX]. intros t Ht. simpl in Ht. now rewrite Ht. }
  assert (HFn : Forall (fun t => negb (Task.fixedTime t) = false) F).
  { eapply Forall_impl; [| exact HF]. intros t Ht. simpl in Ht. now rewrite Ht. }
  assert (Hfix : fixedTasks parse (F ++ X) = F).
  { unfold fixedTasks at 1. rewrite filter_app.
    rewrite (filter_all _ HF), (filter_none _ HX), app_nil_r.
    apply sort_sorted_id. apply byDeadline_ordered. exact Hok. }
  assert (Hflex : flexibleTasks (F ++ X) = X).
  { unfold flexibleTasks. rewrite filter_app.
    now rewrite (filter_none _ HFn), (filter_all _ HXn). }
  assert (Href : referencePoint parse (F ++ X) userLocation
                 = referencePoint parse tasks userLocation).
  { unfold referencePoint. now rewrite Hfix. }
  change (calculateOptimalRoute parse computeDistanceBetween tasks userLocation)
    with (F ++ X).
  unfold calculateOptimalRoute at 1. rewrite Hfix. f_equal.
  unfold orderedFlexible at 1. rewrite Hflex, Href.
  destruct (0 <? List.length X)%nat; [| reflexivity].
  apply sort_sorted_id. subst X. unfold orderedFlexible.
  destruct (0 <? List.length (flexibleTasks tasks))%nat eqn:E.
  - apply byDistance_ordered.
  - apply Nat.ltb_ge in E.
    destruct (flexibleTasks tasks); [constructor | simpl in E; lia].
Qed.

End SequencerMore.

(** A run of X1: two fixed stops in the wrong order and a flexible stop. *)
Lemma calculateOptimalRoute_idempotent_witness :
  let tasks := [Fixture.flexibleAt "a" 1;
                Fixture.fixedAt "b" 9 Fixture.at0900;
                Fixture.fixedAt "c" 5 Fixture.at0830] in
  let once :=
    calculateOptimalRoute Fixture.parse Fixture.distance tasks Fixture.origin in
  calculateOptimalRoute Fixture.parse Fixture.distance once Fixture.origin
  = once.
Proof.
  intros tasks once.
  apply (calculateOptimalRoute_idempotent
           Fixture.parse Fixture.distance tasks Fixture.origin).
  intros t Hin _.
  destruct Hin as [<- | [<- | [<- | []]]]; discriminate.
Defined.

Section SequencerTies.
Variable parse : string -> option Z.
Variable computeDistanceBetween : LatLng -> LatLng -> Q.

(** X2. As soon as one task is fixed the user's location plays no part in
    the order: the flexible tasks are ranked from the last fixed stop. *)
Theorem origin_ignored_with_a_fixed_task
        (tasks : list Task.t) (here there : LatLng) :
  (exists t, In t tasks /\ Task.fixedTime t = true) ->
  calculateOptimalRoute parse computeDistanceBetween tasks here
  = calculateOptimalRoute parse computeDistanceBetween tasks there.
Proof.
  intros (t & Hin & Hfixed).
  assert (Hne : In t (fixedTasks parse tasks)).
  { apply (Permutation_in t (Permutation_sym (fixedTasks_perm parse tasks))).
    apply filter_In. tauto. }
  unfold calculateOptimalRoute, orderedFlexible, referencePoint.
  destruct (fixedTasks parse tasks) as [| t0 rest]; [contradiction |].
  reflexivity.
Qed.

(** X3. Fixed tasks due at the same time keep their input order, provided
    each fixed task has a deadline that is a valid time. *)
Theorem same_deadline_keeps_input_order (tasks : list Task.t) (d : Z) :
  (forall t, In t tasks -> Task.fixedTime t = true ->
             dateOf parse (Task.mustArriveBy t) <> None) ->
  filter (dueAt parse d) (fixedTasks parse tasks)
  = filter (dueAt parse d) (filter Task.fixedTime tasks).
Proof.
  intro Hok. unfold fixedTasks.
  apply filter_cls_sort
    with (P := fun t => dateOf parse (Task.mustArriveBy t) <> None).
  - intros k x y Hx Hy. unfold dueAt.
    destruct (dateOf parse (Task.mustArriveBy x)) as [dx |] eqn:Ex; [| congruence].
    destruct (dateOf parse (Task.mustArriveBy y)) as [dy |] eqn:Ey; [| congruence].
    intros Hkx Hky. apply Z.eqb_eq in Hkx, Hky.
    rewrite (after_byDeadline parse _ _ Ex Ey). apply Z.ltb_ge. lia.
  - rewrite Forall_forall. intros t Ht. apply filter_In in Ht.
    destruct Ht. now apply Hok.
Qed.

(** X4. Flexible tasks at the same distance from the anchor keep their
    input order. *)
Theorem same_distance_keeps_input_order
        (tasks : list Task.t) (userLocation : LatLng) (q : Q) :
  let anchor := anchorOf (fixedTasks parse tasks) userLocation in
  filter (atDistance computeDistanceBetween anchor q)
         (orderedFlexible parse computeDistanceBetween tasks userLocation)
  = filter (atDistance computeDistanceBetween anchor q) (flexibleTasks tasks).
Proof.
  intro anchor. unfold orderedFlexible.
  destruct (0 <? List.length (flexibleTasks tasks))%nat; [| reflexivity].
  rewrite referencePoint_anchorOf. fold anchor.
  apply filter_cls_sort with (P := fun _ => True).
  - intros k x y _ _ Hx Hy. unfold atDistance in Hx, Hy.
    apply Qeq_bool_iff in Hx, Hy.
    apply notAfter_byDistance. unfold distanceLe.
    rewrite Hx, Hy. apply Qle_refl.
  - rewrite Forall_forall. auto.
Qed.

End SequencerTies.

Lemma origin_ignored_with_a_fixed_task_witness :
  let tasks := [Fixture.flexibleAt "a" 1;
                Fixture.fixedAt "b" 9 Fixture.at0900] in
  calculateOptimalRoute Fixture.parse Fixture.distance tasks Fixture.origin
  = calculateOptimalRoute Fixture.parse Fixture.distance tasks
      (mkLatLng 50 50).
Proof.
  intro tasks.
  apply (origin_ignored_with_a_fixed_task
           Fixture.parse Fixture.distance tasks Fixture.origin
           (mkLatLng 50 50)).
  exists (Fixture.fixedAt "b" 9 Fixture.at0900).
  split; [simpl; auto | reflexivity].
Defined.

Lemma same_deadline_keeps_input_order_witness :
  let tasks := [Fixture.fixedAt "x" 1 Fixture.at0900;
                Fixture.fixedAt "early" 2 Fixture.at0830;
                Fixture.fixedAt "y" 3 Fixture.at0900] in
  map Task.id
      (filter (dueAt Fixture.parse 1771081200000)
              (fixedTasks Fixture.parse tasks))
  = ["x"; "y"]%string.
Proof.
  intro tasks.
  rewrite (same_deadline_keeps_input_order Fixture.parse tasks).
  - reflexivity.
  - intros t Hin _.
    destruct Hin as [<- | [<- | [<- | []]]]; discriminate.
Defined.

(* ================================================================== *)
(** ** The directions request *)
(* ================================================================== *)

Lemma slice_all_but_last {A : Type} (l : list A) (x : A) :
  slice (l ++ [x]) 0 (-1) = l.
Proof.
  unfold slice, sliceIndex. rewrite length_app. simpl List.length.
  change (0 <? 0)%Z with false. change (-1 <? 0)%Z with true.
  cbv iota.
  replace (Z.min 0 (Z.of_nat (List.length l + 1))) with 0%Z by lia.
  replace (Z.to_nat
             (Z.max (Z.of_nat (List.length l + 1) + -1) 0 - 0))
    with (List.length l) by lia.
  simpl skipn. rewrite firstn_app, firstn_all, Nat.sub_diag. simpl.
  apply app_nil_r.
Qed.

(** The request built for an order that ends with [x]. *)
Lemma drawFinalRoute_snoc (l : list Task.t) (x : Task.t)
      (userLocation : LatLng) :
  drawFinalRoute (l ++ [x]) userLocation
  = Some (mkRequest userLocation (locationOf x) (map locationOf l) false).
Proof.
  unfold drawFinalRoute.
  rewrite slice_all_but_last.
  rewrite length_app. simpl List.length.
  replace (List.length l + 1 =? 0)%nat with false
    by (symmetry; apply Nat.eqb_neq; lia).
  replace (List.length l + 1 - 1)%nat with (List.length l) by lia.
  now rewrite nth_error_app2, Nat.sub_diag by lia.
Qed.

(** X5. The directions request visits the tasks exactly in the given
    order: the waypoints followed by the destination are the locations of
    the ordered tasks, the request starts from the user's location and
    forbids the service to reorder the waypoints.  Nothing is requested
    for an empty order. *)
Theorem drawFinalRoute_visits_in_order
        (orderedTasks : list Task.t) (userLocation : LatLng) :
  (orderedTasks = [] -> drawFinalRoute orderedTasks userLocation = None)
  /\ (orderedTasks <> [] ->
      exists request,
        drawFinalRoute orderedTasks userLocation = Some request
        /\ origin request = userLocation
        /\ waypoints request ++ [destination request]
           = map locationOf orderedTasks
        /\ optimizeWaypoints request = false).
Proof.
  split; [intros ->; reflexivity |].
  intro Hne.
  destruct (exists_last Hne) as (l & x & ->).
  rewrite drawFinalRoute_snoc.
  eexists. split; [reflexivity |]. simpl.
  split; [reflexivity |].
  split; [now rewrite map_app | reflexivity].
Qed.

Lemma drawFinalRoute_visits_in_order_witness :
  exists request,
    drawFinalRoute [Fixture.fixedAt "b" 9 Fixture.at0900;
                    Fixture.flexibleAt "a" 1] Fixture.origin
    = Some request
    /\ List.length (waypoints request) = 1%nat.
Proof.
  destruct (proj2 (drawFinalRoute_visits_in_order
                     [Fixture.fixedAt "b" 9 Fixture.at0900;
                      Fixture.flexibleAt "a" 1] Fixture.origin))
    as (request & Hrun & _ & Hstops & _).
  - discriminate.
  - exists request. split; [exact Hrun |].
    apply (f_equal (@List.length _)) in Hstops.
    rewrite length_app in Hstops. simpl in Hstops. lia.
Defined.

(** X6. From task list to request: the sequencer's order goes to the
    directions service unchanged, with one stop per task, so a route that
    answers it has one leg per task; only an empty task list sends no
    request. *)
Theorem route_request_has_a_stop_per_task
        (parse : string -> option Z)
        (computeDistanceBetween : LatLng -> LatLng -> Q)
        (tasks : list Task.t) (userLocation : LatLng) :
  let finalOrder :=
    calculateOptimalRoute parse computeDistanceBetween tasks userLocation in
  match drawFinalRoute finalOrder userLocation with
  | None => tasks = []
  | Some request =>
      waypoints request ++ [destination request] = map locationOf finalOrder
      /\ List.length (waypoints request ++ [destination request])
         = List.length tasks
      /\ Permutation (waypoints request ++ [destination request])
                     (map locationOf tasks)
  end.
Proof.
  intro finalOrder.
  pose proof (calculateOptimalRoute_perm parse computeDistanceBetween
                                         tasks userLocation) as Hperm.
  fold finalOrder in Hperm.
  destruct finalOrder as [| t0 rest] eqn:E.
  - simpl. apply Permutation_nil in Hperm. exact Hperm.
  - assert (Hne : t0 :: rest <> []) by discriminate.
    destruct (exists_last Hne) as (l & x & Hlx).
    rewrite Hlx in *. rewrite drawFinalRoute_snoc. simpl.
    rewrite <- map_app with (l := l) (l' := [x]).
    split; [reflexivity |].
    split.
    + rewrite length_map. apply Permutation_length. exact Hperm.
    + apply Permutation_map. exact Hperm.
Qed.

(* ================================================================== *)
(** ** More on the forward builder *)
(* ================================================================== *)

Lemma ceilDiv60_nonneg (v : Z) : (0 <= v -> 0 <= Js.ceilDiv60 v)%Z.
Proof. pose proof (ceilDiv60_bounds v). lia. Qed.

Section ForwardMore.
Variable parse : string -> option Z.

Lemma forward_timeline_chronological :
  forall tasks rest clock,
    (List.length tasks <= List.length rest)%nat ->
    (forall task, In task tasks ->
                  exists m, Task.durationMinutes task = DurNum m /\ (0 <= m)%Z) ->
    (forall leg, In leg rest -> (0 <= value leg)%Z) ->
    chronological clock (Forward.timeline parse (Some clock) tasks rest).
Proof.
  induction tasks as [| task tasks IH]; intros rest clock Hlen Hdur Hleg;
    [exact I |].
  destruct rest as [| leg rest]; [simpl in Hlen; lia |].
  destruct (Hdur task (or_introl eq_refl)) as (m & Hm & Hm0).
  pose proof (ceilDiv60_nonneg (Hleg leg (or_introl eq_refl))) as Hc.
  assert (Hstart :
            Forward.startTime (Forward.scheduleItem parse task leg (Some clock))
            = Some (clock + Js.ceilDiv60 (value leg) * 60000)%Z).
  { unfold Forward.scheduleItem, Js.newDate, Js.getTime; simpl.
    f_equal. lia. }
  assert (Hend :
            Forward.endTime (Forward.scheduleItem parse task leg (Some clock))
            = Some (clock + Js.ceilDiv60 (value leg) * 60000
                    + m * 60 * 1000)%Z).
  { rewrite forward_endTime, Hm. reflexivity. }
  change (Forward.timeline parse (Some clock) (task :: tasks) (leg :: rest))
    with (Forward.scheduleItem parse task leg (Some clock)
          :: Forward.timeline parse
               (Forward.endTime
                  (Forward.scheduleItem parse task leg (Some clock)))
               tasks rest).
  rewrite Hend. cbn [chronological].
  exists (clock + Js.ceilDiv60 (value leg) * 60000)%Z,
         (clock + Js.ceilDiv60 (value leg) * 60000 + m * 60 * 1000)%Z.
  split; [exact Hstart |].
  split; [exact Hend |].
  split; [lia |].
  apply IH.
  - simpl in Hlen. lia.
  - intros t Ht. apply Hdur. now right.
  - intros l Hl. apply Hleg. now right.
Qed.

(** X7. The forward schedule never goes back in time: from a valid start
    time, with a leg for every task, durations that are numbers not below
    zero and legs that take no negative time, every stop is reached no
    earlier than the previous departure (the start time for the first
    stop) and left no earlier than it is reached. *)
Theorem forward_schedule_chronological
        (tasks : list Task.t) (route : Route) (userLocation : LatLng)
        (start : Z) :
  (List.length tasks <= List.length (legs route))%nat ->
  (forall task, In task tasks ->
                exists m, Task.durationMinutes task = DurNum m /\ (0 <= m)%Z) ->
  (forall leg, In leg (legs route) -> (0 <= value leg)%Z) ->
  exists schedule,
    Forward.createTimeAwareSchedule parse tasks route userLocation
                                    (Some start)
    = Js.Ok schedule
    /\ chronological start schedule.
Proof.
  intros Hlen Hdur Hleg.
  exists (Forward.timeline parse (Some start) tasks (legs route)).
  split; [now apply forward_createTimeAwareSchedule_ok |].
  now apply forward_timeline_chronological.
Qed.

Lemma add_None_r (x : option Z) : Js.add x None = None.
Proof. now destruct x. Qed.

Lemma clockAt_None_step (start : option Z) (tasks : list Task.t)
      (rest : list Leg) (j : nat) :
  Forward.clockAt start tasks rest j = None ->
  Forward.clockAt start tasks rest (S j) = None.
Proof.
  intro H. simpl. rewrite H.
  destruct (nth_error tasks j), (nth_error rest j); reflexivity.
Qed.

Lemma clockAt_None_later (start : option Z) (tasks : list Task.t)
      (rest : list Leg) (k j : nat) :
  Forward.clockAt start tasks rest k = None -> (k <= j)%nat ->
  Forward.clockAt start tasks rest j = None.
Proof.
  intros Hk Hle. induction Hle as [| j Hle IH]; [exact Hk |].
  now apply clockAt_None_step.
Qed.

(** X8. In the forward schedule one task without [durationMinutes] spoils
    the rest of the day: its own departure is an Invalid Date, and so are
    the arrival and the departure of every later stop. *)
Theorem forward_missing_duration_invalidates_rest
        (tasks : list Task.t) (route : Route) (userLocation : LatLng)
        (currentTime : Js.Date) (schedule : list Forward.ScheduleItem)
        (k : nat) (task : Task.t) :
  Forward.createTimeAwareSchedule parse tasks route userLocation currentTime
  = Js.Ok schedule ->
  nth_error tasks k = Some task ->
  Task.durationMinutes task = DurAbsent ->
  forall j s,
    (k <= j)%nat -> nth_error schedule j = Some s ->
    Forward.endTime s = None
    /\ ((k < j)%nat -> Forward.startTime s = None).
Proof.
  intros Hrun Hk Habsent j s Hkj Hs.
  destruct (Nat.le_gt_cases (List.length tasks) (List.length (legs route)))
    as [Hlen | Hshort].
  2:{ unfold Forward.createTimeAwareSchedule in Hrun.
      rewrite forward_forEach_throw in Hrun by lia. discriminate. }
  rewrite (forward_createTimeAwareSchedule_ok
             parse tasks route userLocation currentTime Hlen) in Hrun.
  injection Hrun as <-.
  assert (Hj : (j < List.length tasks)%nat).
  { rewrite <- (forward_timeline_length parse tasks (legs route) currentTime Hlen).
    apply nth_error_Some. congruence. }
  destruct (nth_error tasks j) as [tj |] eqn:Etj;
    [| apply nth_error_Some in Hj; congruence].
  destruct (nth_error (legs route) j) as [lj |] eqn:Elj.
  2:{ apply nth_error_None in Elj. lia. }
  rewrite (forward_timeline_nth parse tasks (legs route) currentTime j Etj Elj)
    in Hs.
  injection Hs as <-.
  assert (Hnext : Forward.clockAt currentTime tasks (legs route) (S k) = None).
  { assert (Hkl : (k < List.length (legs route))%nat).
    { apply Nat.lt_le_trans with (List.length tasks); [| exact Hlen].
      apply nth_error_Some. congruence. }
    destruct (nth_error (legs route) k) as [lk |] eqn:Elk;
      [| apply nth_error_None in Elk; lia].
    simpl. rewrite Hk, Elk, Habsent. simpl. apply add_None_r. }
  split.
  - rewrite forward_endTime.
    destruct (Nat.eq_dec j k) as [-> | Hne].
    + assert (tj = task) by congruence. subst tj.
      rewrite Habsent. simpl. apply add_None_r.
    + rewrite (clockAt_None_later currentTime tasks (legs route) (k := S k))
        by (assumption || lia).
      reflexivity.
  - intro Hlt.
    unfold Forward.scheduleItem, Js.newDate, Js.getTime; simpl.
    rewrite (clockAt_None_later currentTime tasks (legs route) (k := S k))
      by (assumption || lia).
    reflexivity.
Qed.

End ForwardMore.

Lemma forward_schedule_chronological_witness :
  exists schedule,
    Forward.createTimeAwareSchedule Fixture.parse
      [Fixture.flexibleAt "a" 1; Fixture.fixedAt "b" 9 Fixture.at0900]
      (mkRoute [mkLeg 61; mkLeg 120]) Fixture.origin (Some 1771077600000%Z)
    = Js.Ok schedule
    /\ chronological 1771077600000 schedule.
Proof.
  apply (forward_schedule_chronological Fixture.parse
           [Fixture.flexibleAt "a" 1; Fixture.fixedAt "b" 9 Fixture.at0900]
           (mkRoute [mkLeg 61; mkLeg 120]) Fixture.origin 1771077600000).
  - simpl. lia.
  - intros task [<- | [<- | []]]; exists 30%Z; split; (reflexivity || lia).
  - intros leg [<- | [<- | []]]; simpl; lia.
Defined.

Lemma forward_missing_duration_invalidates_rest_witness :
  let tasks := [withoutDuration (Fixture.flexibleAt "a" 1);
                Fixture.flexibleAt "b" 2] in
  let route := mkRoute [mkLeg 61; mkLeg 120] in
  let item := Forward.scheduleItem Fixture.parse (Fixture.flexibleAt "b" 2)
                                   (mkLeg 120) None in
  Forward.endTime item = None /\ Forward.startTime item = None.
Proof.
  intros tasks route item.
  destruct (@forward_missing_duration_invalidates_rest
              Fixture.parse tasks route Fixture.origin
              (Some 1771077600000%Z)
              (Forward.timeline Fixture.parse
                 (Some 1771077600000%Z) tasks (legs route))
              0%nat (withoutDuration (Fixture.flexibleAt "a" 1))
              eq_refl eq_refl eq_refl 1%nat item)
    as [Hend Hstart].
  - lia.
  - reflexivity.
  - split; [exact Hend | apply Hstart; lia].
Defined.

(* ================================================================== *)
(** ** Legs beyond the last task *)
(* ================================================================== *)

Lemma forward_timeline_surplus (parse : string -> option Z) :
  forall tasks rest extra clock,
    (List.length tasks <= List.length rest)%nat ->
    Forward.timeline parse clock tasks (rest ++ extra)
    = Forward.timeline parse clock tasks rest.
Proof.
  induction tasks as [| task tasks IH]; intros rest extra clock Hlen;
    [reflexivity |].
  destruct rest as [| leg rest]; [simpl in Hlen; lia |].
  simpl. f_equal. apply IH. simpl in Hlen. lia.
Qed.

Lemma backward_timeline_surplus (parse : string -> option Z) :
  forall tasks rest extra,
    (List.length tasks <= List.length rest)%nat ->
    Backward.timeline parse tasks (rest ++ extra)
    = Backward.timeline parse tasks rest.
Proof.
  induction tasks as [| task tasks IH]; intros rest extra Hlen;
    [reflexivity |].
  destruct rest as [| leg rest]; [simpl in Hlen; lia |].
  simpl. f_equal. apply IH. simpl in Hlen. lia.
Qed.

(** X9. Legs beyond the last task are ignored without notice by both
    builders: with a leg for every task, appending further legs to the
    route leaves the schedule unchanged. *)
Theorem surplus_legs_ignored
        (parse : string -> option Z) (tasks : list Task.t)
        (route : Route) (extra : list Leg)
        (userLocation : LatLng) (currentTime : Js.Date) :
  (List.length tasks <= List.length (legs route))%nat ->
  Forward.createTimeAwareSchedule parse tasks
    (mkRoute (legs route ++ extra)) userLocation currentTime
  = Forward.createTimeAwareSchedule parse tasks route userLocation currentTime
  /\ Backward.createTimeAwareSchedule parse tasks
       (mkRoute (legs route ++ extra))
     = Backward.createTimeAwareSchedule parse tasks route.
Proof.
  intro Hlen.
  assert (Hlen' : (List.length tasks
                   <= List.length (legs (mkRoute (legs route ++ extra))))%nat).
  { simpl. rewrite length_app. lia. }
  split.
  - rewrite (forward_createTimeAwareSchedule_ok parse tasks _ userLocation
               currentTime Hlen').
    rewrite (forward_createTimeAwareSchedule_ok parse tasks route userLocation
               currentTime Hlen).
    simpl. now rewrite forward_timeline_surplus.
  - rewrite (backward_createTimeAwareSchedule_ok parse tasks _ Hlen').
    rewrite (backward_createTimeAwareSchedule_ok parse tasks route Hlen).
    simpl. now rewrite backward_timeline_surplus.
Qed.

Lemma surplus_legs_ignored_witness :
  Backward.createTimeAwareSchedule Fixture.parse
    [Fixture.flexibleAt "a" 1] (mkRoute ([mkLeg 61] ++ [mkLeg 999]))
  = Backward.createTimeAwareSchedule Fixture.parse
      [Fixture.flexibleAt "a" 1] (mkRoute [mkLeg 61]).
Proof.
  apply (surplus_legs_ignored Fixture.parse [Fixture.flexibleAt "a" 1]
           (mkRoute [mkLeg 61]) [mkLeg 999] Fixture.origin (Some 0%Z)).
  simpl. lia.
Defined.

(* ================================================================== *)
(** ** More on the status *)
(* ================================================================== *)

(** X10. The backward schedule can show neither LATE nor TIGHT: the item of
    a fixed task with a non-empty [mustArriveBy] is always ON TIME, being
    placed exactly five minutes before its deadline, and any other item
    has no status. *)
Theorem backward_status_never_late_or_tight
        (parse : string -> option Z) (task : Task.t) (leg : Leg) :
  Backward.statusIcon (Backward.scheduleItem parse task leg)
  = if Task.fixedTime task && truthy (Task.mustArriveBy task)
    then ON_TIME else NoIcon.
Proof.
  destruct (Task.fixedTime task) eqn:Hfixed;
    [| unfold Backward.statusIcon, Backward.scheduleItem; simpl;
       now rewrite Hfixed].
  destruct (truthy (Task.mustArriveBy task)) eqn:Htruthy;
    [| unfold Backward.statusIcon, Backward.scheduleItem; simpl;
       now rewrite Hfixed, Htruthy].
  destruct (dateOf parse (Task.mustArriveBy task)) as [T |] eqn:HT.
  - rewrite (@backward_statusIcon_classifies
               (Backward.scheduleItem parse task leg) (T - 5 * 60000) T).
    + destruct (Z.ltb_spec T (T - 5 * 60000)); [lia |].
      destruct (Z.ltb_spec (T - (T - 5 * 60000)) (5 * 60000));
        [lia | reflexivity].
    + unfold Backward.scheduleItem; simpl. exact Hfixed.
    + unfold Backward.scheduleItem, Backward.BUFFER_MINUTES,
        Js.newDate, Js.getTime; simpl.
      rewrite Hfixed, Htruthy, HT. reflexivity.
    + unfold Backward.scheduleItem; simpl. now rewrite Hfixed, HT.
  - unfold Backward.statusIcon, Backward.scheduleItem,
      Js.newDate, Js.getTime; simpl.
    rewrite Hfixed, Htruthy, HT. reflexivity.
Qed.

(** X11. In the forward schedule a fixed stop whose deadline is not a valid
    time, or whose arrival time is invalid, is shown ON TIME. *)
Theorem forward_status_on_time_without_valid_times
        (parse : string -> option Z) (task : Task.t) (leg : Leg)
        (clock : Js.Date) :
  Task.fixedTime task = true ->
  dateOf parse (Task.mustArriveBy task) = None \/ clock = None ->
  Forward.statusIcon (Forward.scheduleItem parse task leg clock) = ON_TIME.
Proof.
  intros Hfixed Hinvalid.
  unfold Forward.statusIcon, Forward.minutesBeforeDeadline,
    Forward.scheduleItem; simpl.
  rewrite Hfixed.
  unfold Js.newDate, Js.getTime, Js.dateGt, Js.dateDiff, Js.sub, Js.getTime.
  destruct Hinvalid as [-> | ->].
  - destruct (Js.add clock _); reflexivity.
  - simpl. destruct (dateOf parse (Task.mustArriveBy task)); reflexivity.
Qed.

Lemma forward_status_on_time_without_valid_times_witness :
  Forward.statusIcon
    (Forward.scheduleItem Fixture.parse (Fixture.fixedAt "m" 9 ByAbsent)
                          (mkLeg 61) (Some 1771077600000%Z))
  = ON_TIME.
Proof.
  apply (@forward_status_on_time_without_valid_times
           Fixture.parse (Fixture.fixedAt "m" 9 ByAbsent) (mkLeg 61)
           (Some 1771077600000%Z)).
  - reflexivity.
  - left. reflexivity.
Defined.

(* ================================================================== *)
(** ** Slices and searches *)
(* ================================================================== *)

Lemma slice_in_range {A : Type} (l : list A) (a b : nat) :
  (a <= b <= List.length l)%nat ->
  slice l (Z.of_nat a) (Z.of_nat b) = firstn (b - a) (skipn a l).
Proof.
  intro H. unfold slice, sliceIndex.
  destruct (Z.ltb_spec (Z.of_nat a) 0); [lia |].
  destruct (Z.ltb_spec (Z.of_nat b) 0); [lia |].
  rewrite !Z.min_l by lia.
  f_equal; [lia | f_equal; lia].
Qed.

Lemma slice_middle {A : Type} (pre mid post : list A) :
  slice (pre ++ mid ++ post) (Z.of_nat (List.length pre))
        (Z.of_nat (List.length pre + List.length mid))
  = mid.
Proof.
  rewrite slice_in_range by (rewrite !length_app; lia).
  rewrite skipn_app, skipn_all, Nat.sub_diag. simpl.
  replace (List.length pre + List.length mid - List.length pre)%nat
    with (List.length mid) by lia.
  rewrite firstn_app, firstn_all, Nat.sub_diag. simpl. apply app_nil_r.
Qed.

Lemma indexOfFrom_spec (c : N) (s : text) :
  forall i,
    (~ In c s /\ indexOfFrom c s i = (-1)%Z)
    \/ (exists pre rest,
           s = pre ++ c :: rest /\ ~ In c pre
           /\ indexOfFrom c s i = (i + Z.of_nat (List.length pre))%Z).
Proof.
  induction s as [| u s IH]; intro i.
  - left. split; [intros [] | reflexivity].
  - simpl. destruct (N.eqb_spec u c) as [-> | Hne].
    + right. exists [], s. repeat split; [intros [] | simpl; lia].
    + destruct (IH (i + 1)%Z) as [[Hnot Hi] | (pre & rest & -> & Hpre & Hi)].
      * left. split; [| exact Hi]. intros [H | H]; [congruence | tauto].
      * right. exists (u :: pre), rest.
        split; [reflexivity |].
        split; [intros [H | H]; [congruence | tauto] |].
        rewrite Hi. simpl List.length. lia.
Qed.

Lemma lastIndexOfFrom_spec (c : N) (s : text) :
  forall i found,
    (~ In c s /\ lastIndexOfFrom c s i found = found)
    \/ (exists pre post,
           s = pre ++ c :: post /\ ~ In c post
           /\ lastIndexOfFrom c s i found
              = (i + Z.of_nat (List.length pre))%Z).
Proof.
  induction s as [| u s IH]; intros i found.
  - left. split; [intros [] | reflexivity].
  - simpl.
    destruct (IH (i + 1)%Z (if (u =? c)%N then i else found))
      as [[Hnot Hi] | (pre & post & -> & Hpost & Hi)].
    + destruct (N.eqb_spec u c) as [-> | Hne].
      * right. exists [], s. repeat split; [exact Hnot | simpl; lia].
      * left. split; [| exact Hi]. intros [H | H]; [congruence | tauto].
    + right. exists (u :: pre), post.
      split; [reflexivity |]. split; [exact Hpost |].
      rewrite Hi. simpl List.length. lia.
Qed.

Lemma indexOf_spec (c : N) (s : text) :
  (~ In c s /\ indexOf c s = (-1)%Z)
  \/ (exists pre rest,
         s = pre ++ c :: rest /\ ~ In c pre
         /\ indexOf c s = Z.of_nat (List.length pre)).
Proof.
  unfold indexOf.
  destruct (indexOfFrom_spec c s 0) as [H | (pre & rest & H1 & H2 & H3)];
    [now left | right].
  exists pre, rest. rewrite H3. repeat split; (assumption || lia).
Qed.

Lemma lastIndexOf_spec (c : N) (s : text) :
  (~ In c s /\ lastIndexOf c s = (-1)%Z)
  \/ (exists pre post,
         s = pre ++ c :: post /\ ~ In c post
         /\ lastIndexOf c s = Z.of_nat (List.length pre)).
Proof.
  unfold lastIndexOf.
  destruct (lastIndexOfFrom_spec c s 0 (-1))
    as [H | (pre & post & H1 & H2 & H3)]; [now left | right].
  exists pre, post. rewrite H3. repeat split; (assumption || lia).
Qed.

(** The first occurrence is no later than any occurrence. *)
Lemma first_occurrence_least {A : Type} (c : A) (p1 r1 pre r : list A) :
  p1 ++ c :: r1 = pre ++ c :: r -> ~ In c p1 ->
  (List.length p1 <= List.length pre)%nat.
Proof.
  intros Heq Hnot.
  apply app_eq_app in Heq. destruct Heq as (l & [[-> Hl] | [-> Hl]]).
  - destruct l as [| x l]; [rewrite length_app; simpl; lia |].
    simpl in Hl. injection Hl as <- _.
    exfalso. apply Hnot. apply in_or_app. right. now left.
  - rewrite length_app. lia.
Qed.

(** The last occurrence is no earlier than any occurrence. *)
Lemma last_occurrence_greatest {A : Type} (c : A) (p2 post q r : list A) :
  p2 ++ c :: post = q ++ c :: r -> ~ In c post ->
  (List.length q <= List.length p2)%nat.
Proof.
  intros Heq Hnot.
  apply app_eq_app in Heq. destruct Heq as (l & [[-> Hl] | [-> Hl]]).
  - rewrite length_app. lia.
  - destruct l as [| x l]; [rewrite length_app; simpl; lia |].
    simpl in Hl. injection Hl as <- ->.
    exfalso. apply Hnot. apply in_or_app. right. now left.
Qed.

(* ================================================================== *)
(** ** The JSON array inside a reply *)
(* ================================================================== *)

(** What [extractCompleteJsonArray] returns, by cases. *)
Lemma extract_span (s : text) :
  match extractCompleteJsonArray s with
  | Some r =>
      exists pre mid post,
        s = pre ++ [Char.lbracket] ++ mid ++ [Char.rbracket] ++ post
        /\ ~ In Char.lbracket pre
        /\ ~ In Char.rbracket post
        /\ r = [Char.lbracket] ++ mid ++ [Char.rbracket]
  | None =>
      ~ exists pre mid post,
          s = pre ++ [Char.lbracket] ++ mid ++ [Char.rbracket] ++ post
  end.
Proof.
  unfold extractCompleteJsonArray.
  destruct (indexOf_spec Char.lbracket s)
    as [[Hno ->] | (p1 & r1 & Hs1 & Hp1 & ->)].
  { simpl. intros (pre & mid & post & ->).
    apply Hno. apply in_or_app. right. now left. }
  destruct (lastIndexOf_spec Char.rbracket s)
    as [[Hno ->] | (p2 & post & Hs2 & Hpost & ->)].
  { replace ((Z.of_nat (List.length p1) =? -1)%Z) with false
      by (symmetry; apply Z.eqb_neq; lia).
    simpl. intros (pre & mid & post & ->).
    apply Hno. apply in_or_app. right. right.
    apply in_or_app. right. now left. }
  replace ((Z.of_nat (List.length p1) =? -1)%Z) with false
    by (symmetry; apply Z.eqb_neq; lia).
  replace ((Z.of_nat (List.length p2) =? -1)%Z) with false
    by (symmetry; apply Z.eqb_neq; lia).
  cbn [orb].
  destruct (Z.leb_spec (Z.of_nat (List.length p2))
                       (Z.of_nat (List.length p1))) as [Hle | Hgt].
  - intros (pre & mid & post' & Hs).
    assert (H1 : (List.length p1 <= List.length pre)%nat).
    { apply (first_occurrence_least Char.lbracket p1 r1 pre
                                    (mid ++ [Char.rbracket] ++ post'));
        [| exact Hp1].
      rewrite <- Hs1. exact Hs. }
    assert (H2 : (List.length (pre ++ Char.lbracket :: mid)
                  <= List.length p2)%nat).
    { apply (last_occurrence_greatest Char.rbracket p2 post
                                      (pre ++ Char.lbracket :: mid) post');
        [| exact Hpost].
      rewrite <- Hs2, Hs. rewrite <- app_assoc. reflexivity. }
    rewrite length_app in H2. simpl in H2. lia.
  - assert (Hsplit : exists mid, p2 = p1 ++ Char.lbracket :: mid).
    { rewrite Hs1 in Hs2. apply app_eq_app in Hs2.
      destruct Hs2 as (l & [[Hp Hl] | [Hp Hl]]).
      - rewrite Hp, length_app in Hgt. lia.
      - destruct l as [| x l].
        + rewrite Hp, length_app in Hgt. simpl in Hgt. lia.
        + simpl in Hl. injection Hl as <- _. now exists l. }
    destruct Hsplit as (mid & ->).
    exists p1, mid, post.
    assert (Hs : s = p1 ++ [Char.lbracket] ++ mid ++ [Char.rbracket] ++ post).
    { rewrite Hs2. rewrite <- app_assoc. reflexivity. }
    split; [exact Hs |].
    split; [exact Hp1 |].
    split; [exact Hpost |].
    f_equal.
    replace (Z.of_nat (List.length (p1 ++ Char.lbracket :: mid)) + 1)%Z
      with (Z.of_nat (List.length p1
                      + List.length ([Char.lbracket] ++ mid ++ [Char.rbracket]))).
    2:{ rewrite ?length_app. simpl. rewrite ?length_app. simpl. lia. }
    rewrite Hs.
    replace (p1 ++ [Char.lbracket] ++ mid ++ [Char.rbracket] ++ post)
      with (p1 ++ ([Char.lbracket] ++ mid ++ [Char.rbracket]) ++ post).
    2:{ simpl. rewrite <- app_assoc. reflexivity. }
    apply slice_middle.
Qed.

(** X12. [extractCompleteJsonArray] returns the part of the text from its
    first opening bracket to its last closing bracket, both included, and
    returns [null] exactly when no opening bracket is followed by a
    closing one. *)
Theorem extractCompleteJsonArray_widest_span (s : text) :
  (forall r,
      extractCompleteJsonArray s = Some r ->
      exists pre mid post,
        s = pre ++ [Char.lbracket] ++ mid ++ [Char.rbracket] ++ post
        /\ ~ In Char.lbracket pre
        /\ ~ In Char.rbracket post
        /\ r = [Char.lbracket] ++ mid ++ [Char.rbracket])
  /\ (extractCompleteJsonArray s = None <->
      ~ exists pre mid post,
          s = pre ++ [Char.lbracket] ++ mid ++ [Char.rbracket] ++ post).
Proof.
  pose proof (extract_span s) as H.
  destruct (extractCompleteJsonArray s) as [r0 |].
  - split.
    + intros r Hr. injection Hr as <-. exact H.
    + split; [discriminate |].
      intro Hno. exfalso. apply Hno.
      destruct H as (pre & mid & post & Hs & _). now exists pre, mid, post.
  - split; [discriminate |].
    split; [intros _; exact H | reflexivity].
Qed.

(** X13. Extracting twice changes nothing: what
    [extractCompleteJsonArray] returns is returned unchanged when the
    function is applied to it again. *)
Theorem extractCompleteJsonArray_idempotent (s r : text) :
  extractCompleteJsonArray s = Some r ->
  extractCompleteJsonArray r = Some r.
Proof.
  intro Hs.
  pose proof (extract_span s) as H.
  rewrite Hs in H. destruct H as (pre & mid & post & _ & _ & _ & Hr).
  pose proof (extract_span r) as H.
  destruct (extractCompleteJsonArray r) as [r' |].
  - destruct H as (pre' & mid' & post' & Hr' & Hpre' & Hpost' & ->).
    destruct pre' as [| x pre'].
    2:{ exfalso. rewrite Hr in Hr'. simpl in Hr'. injection Hr' as <- _.
        apply Hpre'. now left. }
    simpl in Hr'.
    destruct post' as [| y post'] using rev_ind.
    + now rewrite Hr'.
    + exfalso. clear IHpost'.
      rewrite Hr in Hr'. simpl in Hr'. injection Hr' as Hr'.
      assert (Hrb : y = Char.rbracket).
      { replace (mid' ++ Char.rbracket :: post' ++ [y])
          with ((mid' ++ Char.rbracket :: post') ++ [y]) in Hr'
          by (rewrite <- app_assoc; reflexivity).
        apply app_inj_tail in Hr'. now destruct Hr'. }
      apply Hpost'. apply in_or_app. right. left. exact Hrb.
  - exfalso. apply H. exists [], mid, []. rewrite Hr. simpl.
    reflexivity.
Qed.

Lemma extractCompleteJsonArray_idempotent_witness :
  extractCompleteJsonArray (codes "[1,[2]] bar]")
  = Some (codes "[1,[2]] bar]").
Proof.
  apply (extractCompleteJsonArray_idempotent (codes "Sure: [1,[2]] bar] .")).
  reflexivity.
Defined.

(* ================================================================== *)
(** ** Repairing a truncated reply *)
(* ================================================================== *)

Lemma spaces_spec (s : text) :
  forall n r,
    spaces s = (n, r) ->
    exists ws, s = ws ++ r /\ Forall (fun u => Char.isSpace u = true) ws.
Proof.
  induction s as [| u s IH]; intros n r H.
  - simpl in H. injection H as <- <-. exists []. split; [reflexivity | constructor].
  - simpl in H. destruct (Char.isSpace u) eqn:E.
    + destruct (spaces s) as [n' r'] eqn:Es. injection H as <- <-.
      destruct (IH n' r' eq_refl) as (ws & -> & Hws).
      exists (u :: ws). split; [reflexivity | now constructor].
    + injection H as <- <-. exists []. split; [reflexivity | constructor].
Qed.

Lemma trailingAt_spec (t : text) (n : nat) :
  trailingAt t = Some n -> braceThenComma t.
Proof.
  unfold trailingAt, braceThenComma.
  destruct t as [| u r]; [discriminate |].
  destruct (N.eqb_spec u Char.rbrace) as [-> | _]; [| discriminate].
  destruct (spaces r) as [n1 r1] eqn:E1.
  destruct r1 as [| v r2]; [discriminate |].
  destruct (N.eqb_spec v Char.comma) as [-> | _]; [| discriminate].
  intros _. destruct (spaces_spec r E1) as (ws & -> & Hws).
  now exists ws, r2.
Qed.

Lemma boundaryAt_spec (t : text) (n : nat) :
  boundaryAt t = Some n -> braceThenComma t.
Proof.
  unfold boundaryAt, braceThenComma.
  destruct t as [| u r]; [discriminate |].
  destruct (N.eqb_spec u Char.rbrace) as [-> | _]; [| discriminate].
  destruct (spaces r) as [n1 r1] eqn:E1.
  destruct r1 as [| v r2]; [discriminate |].
  destruct (N.eqb_spec v Char.comma) as [-> | _]; [| discriminate].
  intros _. destruct (spaces_spec r E1) as (ws & -> & Hws).
  now exists ws, r2.
Qed.

Lemma matchAllFrom_In (matchAt : text -> option nat) (s : text) :
  forall i skip idx,
    In idx (matchAllFrom matchAt s i skip) ->
    exists k n,
      idx = (i + Z.of_nat k)%Z /\ (k < List.length s)%nat
      /\ matchAt (skipn k s) = Some n.
Proof.
  induction s as [| u s IH]; intros i skip idx Hin; [contradiction |].
  assert (Hrest : forall skip',
             In idx (matchAllFrom matchAt s (i + 1) skip') ->
             exists k n,
               idx = (i + Z.of_nat k)%Z /\ (k < List.length (u :: s))%nat
               /\ matchAt (skipn k (u :: s)) = Some n).
  { intros skip' H. destruct (IH _ _ _ H) as (k & n & -> & Hk & Hm).
    exists (S k), n. simpl List.length. repeat split; [lia | lia | exact Hm]. }
  simpl in Hin. destruct skip as [| skip]; [| eauto].
  destruct (matchAt (u :: s)) as [n |] eqn:E; [| eauto].
  destruct Hin as [<- | Hin]; [| eauto].
  exists O, n. simpl List.length. repeat split; [lia | lia | exact E].
Qed.

Lemma lastOf_In {A : Type} (l : list A) (x : A) : lastOf l = Some x -> In x l.
Proof. apply nth_error_In. Qed.

Lemma repair_cut (matchAt : text -> option nat) (s p1 r1 : text) (idx : Z) :
  (forall t n, matchAt t = Some n -> braceThenComma t) ->
  s = p1 ++ Char.lbracket :: r1 ->
  In idx (matchAll matchAt r1) ->
  exists pre ws rest,
    s = pre ++ [Char.rbrace] ++ ws ++ [Char.comma] ++ rest
    /\ Forall (fun u => Char.isSpace u = true) ws
    /\ In Char.lbracket pre
    /\ slice s 0 (Z.of_nat (List.length p1) + 1 + idx + 1)
       = pre ++ [Char.rbrace].
Proof.
  intros Hspec Hs Hin.
  destruct (matchAllFrom_In matchAt r1 0 O idx Hin) as (k & n & -> & Hk & Hm).
  destruct (Hspec _ _ Hm) as (ws & rest & Hcut & Hws).
  pose proof (firstn_skipn k r1) as Hr1. rewrite Hcut in Hr1.
  set (pre := p1 ++ Char.lbracket :: firstn k r1).
  assert (Hpre : List.length pre = (List.length p1 + 1 + k)%nat).
  { unfold pre. rewrite length_app. simpl.
    rewrite length_firstn. lia. }
  assert (Hs' : s = pre ++ [Char.rbrace] ++ ws ++ [Char.comma] ++ rest).
  { rewrite Hs. unfold pre. rewrite <- app_assoc. simpl.
    now rewrite Hr1. }
  exists pre, ws, rest.
  split; [exact Hs' |]. split; [exact Hws |].
  split; [unfold pre; apply in_or_app; right; now left |].
  replace (Z.of_nat (List.length p1) + 1 + (0 + Z.of_nat k) + 1)%Z
    with (Z.of_nat (List.length (@nil N)
                    + List.length (pre ++ [Char.rbrace])))
    by (rewrite length_app, Hpre; simpl; lia).
  rewrite Hs'.
  replace (pre ++ [Char.rbrace] ++ ws ++ [Char.comma] ++ rest)
    with ([] ++ (pre ++ [Char.rbrace]) ++ ws ++ [Char.comma] ++ rest)
    by (simpl; now rewrite <- app_assoc).
  apply (slice_middle [] (pre ++ [Char.rbrace])).
Qed.

(** X14. When [tryRepairTruncatedJson] returns a text, that text is the
    reply cut right behind a closing brace and closed with a bracket: the
    brace lies behind the first opening bracket and is followed in the
    reply by blanks and a comma, and everything in front of the brace,
    including whatever precedes the opening bracket, is kept. *)
Theorem tryRepairTruncatedJson_cuts_behind_brace (s r : text) :
  tryRepairTruncatedJson s = Some r ->
  exists pre ws rest,
    s = pre ++ [Char.rbrace] ++ ws ++ [Char.comma] ++ rest
    /\ Forall (fun u => Char.isSpace u = true) ws
    /\ In Char.lbracket pre
    /\ r = pre ++ [Char.rbrace; Char.rbracket].
Proof.
  unfold tryRepairTruncatedJson.
  destruct (indexOf_spec Char.lbracket s)
    as [[Hno ->] | (p1 & r1 & Hs & Hp1 & ->)]; [discriminate |].
  replace ((Z.of_nat (List.length p1) =? -1)%Z) with false
    by (symmetry; apply Z.eqb_neq; lia).
  assert (Hbody : slice s (Z.of_nat (List.length p1) + 1)
                        (Z.of_nat (List.length s)) = r1).
  { replace (Z.of_nat (List.length p1) + 1)%Z
      with (Z.of_nat (List.length (p1 ++ [Char.lbracket])))
      by (rewrite length_app; simpl; lia).
    replace (Z.of_nat (List.length s))
      with (Z.of_nat (List.length (p1 ++ [Char.lbracket])
                      + List.length r1))
      by (rewrite Hs, !length_app; simpl; lia).
    replace s with ((p1 ++ [Char.lbracket]) ++ r1 ++ [])
      by (rewrite Hs, app_nil_r, <- app_assoc; reflexivity).
    apply slice_middle. }
  rewrite Hbody.
  assert (Hfinish :
            forall matchAt idx,
              (forall t n, matchAt t = Some n -> braceThenComma t) ->
              lastOf (matchAll matchAt r1) = Some idx ->
              Some (slice s 0 (Z.of_nat (List.length p1) + 1 + idx + 1)
                    ++ [Char.rbracket]) = Some r ->
              exists pre ws rest,
                s = pre ++ [Char.rbrace] ++ ws ++ [Char.comma] ++ rest
                /\ Forall (fun u => Char.isSpace u = true) ws
                /\ In Char.lbracket pre
                /\ r = pre ++ [Char.rbrace; Char.rbracket]).
  { intros matchAt idx Hspec Hlast Hr. injection Hr as <-.
    destruct (@repair_cut matchAt s p1 r1 idx Hspec Hs (lastOf_In _ Hlast))
      as (pre & ws & rest & H1 & H2 & H3 & H4).
    exists pre, ws, rest. rewrite H4, <- app_assoc. auto. }
  destruct (lastOf (matchAll boundaryAt r1)) as [idx |] eqn:E1.
  - apply Hfinish with boundaryAt; [exact boundaryAt_spec | exact E1].
  - destruct (lastOf (matchAll trailingAt r1)) as [idx |] eqn:E2;
      [| discriminate].
    apply Hfinish with trailingAt; [exact trailingAt_spec | exact E2].
Qed.

Lemma tryRepairTruncatedJson_cuts_behind_brace_witness :
  exists pre ws rest,
    codes "x [{a:1} , {b:2},{c"
    = pre ++ [Char.rbrace] ++ ws ++ [Char.comma] ++ rest
    /\ codes "x [{a:1} , {b:2}]" = pre ++ [Char.rbrace; Char.rbracket].
Proof.
  destruct (@tryRepairTruncatedJson_cuts_behind_brace
              (codes "x [{a:1} , {b:2},{c") (codes "x [{a:1} , {b:2}]")
              eq_refl)
    as (pre & ws & rest & Hs & _ & _ & Hr).
  exists pre, ws, rest. split; [exact Hs | exact Hr].
Defined.

(* ================================================================== *)
(** ** The first scheduler *)
(* ================================================================== *)

Section CreateScheduleFacts.
Variable parse : string -> option Z.

Lemma scheduleFrom_length (sorted : list Planned.t) :
  forall time, List.length (scheduleFrom parse time sorted) = List.length sorted.
Proof.
  induction sorted as [| task rest IH]; intro time; [reflexivity |].
  simpl. now rewrite IH.
Qed.

Lemma scheduleFrom_ids (sorted : list Planned.t) :
  forall time,
    map Slot.taskId (scheduleFrom parse time sorted) = map Planned.id sorted.
Proof.
  induction sorted as [| task rest IH]; intro time; [reflexivity |].
  simpl. now rewrite IH.
Qed.

Lemma scheduleFrom_In (sorted : list Planned.t) :
  forall time item,
    In item (scheduleFrom parse time sorted) ->
    exists task time', In task sorted /\ item = plannedItem parse task time'.
Proof.
  induction sorted as [| task rest IH]; intros time item Hin; [contradiction |].
  destruct Hin as [<- | Hin].
  - exists task, time. split; [now left | reflexivity].
  - destruct (IH _ _ Hin) as (t & time' & Ht & ->).
    exists t, time'. split; [now right | reflexivity].
Qed.

Lemma plannedItem_ends_by_deadline (task : Planned.t) (time : Js.Date)
      (T e : Z) :
  Planned.fixedTime task = true ->
  truthy (Planned.mustArriveBy task) = true ->
  dateOf parse (Planned.mustArriveBy task) = Some T ->
  Slot.endTime (plannedItem parse task time) = Some e ->
  (e <= T)%Z.
Proof.
  intros Hfixed Htruthy HT.
  unfold plannedItem, Js.newDate, Js.getTime; simpl.
  rewrite Hfixed, Htruthy, HT. simpl.
  destruct (Js.add (Js.add time _) _) as [x |]; simpl.
  - unfold Js.dateGt, Js.getTime.
    destruct (Z.ltb_spec T x); intro He; injection He as <-; lia.
  - discriminate.
Qed.

Lemma plannedItem_lasts_duration (task : Planned.t) (time : Js.Date)
      (d a e : Z) :
  durationMs (Planned.durationMinutes task) = Some d ->
  Slot.startTime (plannedItem parse task time) = Some a ->
  Slot.endTime (plannedItem parse task time) = Some e ->
  e = (a + d)%Z.
Proof.
  intro Hd.
  unfold plannedItem, Js.newDate, Js.getTime; simpl.
  rewrite Hd.
  destruct (Planned.fixedTime task && truthy (Planned.mustArriveBy task)
            && Js.dateGt
                 (Js.add (Js.add time
                            (Some (minutesOr0
                                     (Planned.estimatedTravelMinutes task)
                                   * 60 * 1000)%Z))
                         (Some d))
                 (dateOf parse (Planned.mustArriveBy task))) eqn:Eclamp.
  - destruct (dateOf parse (Planned.mustArriveBy task)) as [T |]; simpl.
    + intros Ha He. injection Ha as <-. injection He as <-. lia.
    + discriminate.
  - destruct (Js.add time _) as [x |]; simpl.
    + intros Ha He. injection Ha as <-. injection He as <-. lia.
    + discriminate.
Qed.

(** X15. [createSchedule] returns one item per task, and every item with
    valid times lasts exactly the duration of its task; the item of a
    fixed task with a usable deadline never ends after that deadline. *)
Theorem createSchedule_items_fit
        (tasks : list Planned.t) (currentLocation : LatLng)
        (currentTime : string) :
  let schedule := createSchedule parse tasks currentLocation currentTime in
  List.length schedule = List.length tasks
  /\ Permutation (map Slot.taskId schedule) (map Planned.id tasks)
  /\ forall item,
       In item schedule ->
       exists task,
         In task tasks
         /\ Slot.taskId item = Planned.id task
         /\ (forall d a e,
                durationMs (Planned.durationMinutes task) = Some d ->
                Slot.startTime item = Some a ->
                Slot.endTime item = Some e ->
                e = (a + d)%Z)
         /\ (forall T e,
                Planned.fixedTime task = true ->
                truthy (Planned.mustArriveBy task) = true ->
                dateOf parse (Planned.mustArriveBy task) = Some T ->
                Slot.endTime item = Some e ->
                (e <= T)%Z).
Proof.
  intro schedule. unfold schedule, createSchedule.
  split; [rewrite scheduleFrom_length; apply sort_length |].
  split.
  { rewrite scheduleFrom_ids. apply Permutation_map, sort_perm. }
  intros item Hin.
  destruct (scheduleFrom_In _ _ _ Hin) as (task & time' & Htask & ->).
  exists task.
  split.
  { apply (Permutation_in task (sort_perm (byOrder) tasks)). exact Htask. }
  split; [reflexivity |].
  split.
  - intros d a e. apply plannedItem_lasts_duration.
  - intros T e. apply plannedItem_ends_by_deadline.
Qed.

(** X16. When a fixed task cannot be finished by its deadline,
    [createSchedule] moves it back so that it ends exactly at the
    deadline; the stop then begins before the traveller can be there. *)
Theorem createSchedule_clamped_stop_starts_before_arrival
        (task : Planned.t) (clock T d : Z) :
  Planned.fixedTime task = true ->
  truthy (Planned.mustArriveBy task) = true ->
  dateOf parse (Planned.mustArriveBy task) = Some T ->
  durationMs (Planned.durationMinutes task) = Some d ->
  let arrival :=
    (clock + minutesOr0 (Planned.estimatedTravelMinutes task) * 60000)%Z in
  (T < arrival + d)%Z ->
  Slot.endTime (plannedItem parse task (Some clock)) = Some T
  /\ Slot.startTime (plannedItem parse task (Some clock)) = Some (T - d)%Z
  /\ (T - d < arrival)%Z.
Proof.
  intros Hfixed Htruthy HT Hd arrival Hlate.
  unfold plannedItem, Js.newDate, Js.getTime, Js.dateGt, Js.getTime; simpl.
  rewrite Hfixed, Htruthy, HT, Hd. simpl.
  replace (T <? clock
                + minutesOr0 (Planned.estimatedTravelMinutes task) * 60 * 1000
                + d)%Z with true
    by (symmetry; apply Z.ltb_lt; unfold arrival in Hlate; lia).
  repeat split. lia.
Qed.

End CreateScheduleFacts.

Lemma createSchedule_items_fit_witness :
  let task := PlanFixture.planned "b" (OrdNum 1) 10 30 Fixture.at0900 true in
  let schedule :=
    createSchedule Fixture.parse [task] Fixture.origin
                   "2026-02-14T08:30:00-06:00" in
  exists item, In item schedule /\ Slot.endTime item = Some 1771081200000%Z.
Proof.
  intros task schedule.
  destruct (createSchedule_items_fit Fixture.parse [task] Fixture.origin
                                     "2026-02-14T08:30:00-06:00")
    as (_ & _ & Hitems).
  destruct (Hitems (plannedItem Fixture.parse task (Some 1771079400000%Z)))
    as (t & _ & _ & _ & _); [left; reflexivity |].
  exists (plannedItem Fixture.parse task (Some 1771079400000%Z)).
  split; [left; reflexivity | reflexivity].
Defined.

Lemma createSchedule_clamped_stop_starts_before_arrival_witness :
  let task := PlanFixture.planned "b" (OrdNum 1) 10 30 Fixture.at0900 true in
  Slot.endTime (plannedItem Fixture.parse task (Some 1771079400000%Z))
  = Some 1771081200000%Z
  /\ Slot.startTime (plannedItem Fixture.parse task (Some 1771079400000%Z))
     = Some (1771081200000 - 30 * 60 * 1000)%Z.
Proof.
  intro task.
  destruct (@createSchedule_clamped_stop_starts_before_arrival
              Fixture.parse task 1771079400000 1771081200000
              (30 * 60 * 1000) eq_refl eq_refl eq_refl eq_refl)
    as (Hend & Hstart & _).
  - simpl. lia.
  - split; [exact Hend | exact Hstart].
Defined.

(* ================================================================== *)
(** ** Normalising the planner's reply *)
(* ================================================================== *)

Section NormaliseFacts.
Variable parseFloat : JsVal -> Js.number.

Lemma after_byOrderOr999 (a b : Planned.t) :
  Js.after byOrderOr999 a b
  = (orderOr999 (Planned.order b) <? orderOr999 (Planned.order a))%Z.
Proof.
  unfold Js.after, Js.SortCompare, byOrderOr999.
  rewrite Qle_bool_inject_Z_0.
  destruct (Z.leb_spec (orderOr999 (Planned.order a)
                        - orderOr999 (Planned.order b)) 0),
           (Z.ltb_spec (orderOr999 (Planned.order b))
                       (orderOr999 (Planned.order a)));
    simpl; auto; lia.
Qed.

Lemma mapWithNumbers_In (l : list (option Raw.t)) (p : Planned.t) :
  In p (mapWithNumbers parseFloat l) <->
  exists t, In (Some t) l /\ p = withNumbers parseFloat t.
Proof.
  induction l as [| [t |] l IH]; simpl.
  - split; [intros [] | intros (t & [] & _)].
  - rewrite IH. split.
    + intros [<- | (t' & Ht' & ->)]; eauto.
    + intros (t' & [Ht' | Ht'] & ->).
      * injection Ht' as ->. now left.
      * right. eauto.
  - rewrite IH. split.
    + intros (t' & Ht' & ->). eauto.
    + intros (t' & [Ht' | Ht'] & ->); [discriminate | eauto].
Qed.

Lemma normalise_numeric (tasks : list (option Raw.t)) :
  Forall (fun p => exists x y,
              Planned.lat p = Js.Num x /\ Planned.lng p = Js.Num y)
         (normalise parseFloat tasks).
Proof.
  unfold normalise. apply sort_Forall. rewrite Forall_forall.
  intros p Hp. apply filter_In in Hp. destruct Hp as [_ Hp].
  unfold coordinatesAreNumbers in Hp.
  destruct (Planned.lat p) as [| x]; [discriminate |].
  destruct (Planned.lng p) as [| y]; [discriminate |].
  now exists x, y.
Qed.

Lemma normalise_sorted (tasks : list (option Raw.t)) :
  StronglySorted
    (fun a b => (orderOr999 (Planned.order a)
                 <= orderOr999 (Planned.order b))%Z)
    (normalise parseFloat tasks).
Proof.
  unfold normalise. apply sort_sorted with (P := fun _ => True).
  - intros a b c. apply Z.le_trans.
  - intros a b _ _. rewrite after_byOrderOr999. intro H.
    apply Z.ltb_lt in H. lia.
  - intros a b _ _. rewrite after_byOrderOr999. intro H.
    apply Z.ltb_ge in H. exact H.
  - rewrite Forall_forall. auto.
Qed.

(** X17. Every task [planRouteFromText] returns has numbers for both
    coordinates, never NaN, and the tasks come in non-decreasing [order],
    a missing or null [order] counting as 999. *)
Theorem normalise_numeric_and_ordered (tasks : list (option Raw.t)) :
  Forall (fun p => exists x y,
              Planned.lat p = Js.Num x /\ Planned.lng p = Js.Num y)
         (normalise parseFloat tasks)
  /\ StronglySorted
       (fun a b => (orderOr999 (Planned.order a)
                    <= orderOr999 (Planned.order b))%Z)
       (normalise parseFloat tasks).
Proof.
  split.
  - apply normalise_numeric.
  - apply normalise_sorted.
Qed.

(** X18. A parsed task whose latitude and longitude are numbers other than
    NaN is never dropped by [planRouteFromText]: it is returned with the
    same coordinates, also when a coordinate is zero. *)
Theorem normalise_keeps_numeric_tasks
        (tasks : list (option Raw.t)) (t : Raw.t) (x y : Q) :
  In (Some t) tasks ->
  Raw.lat t = VNumber (Js.Num x) ->
  Raw.lng t = VNumber (Js.Num y) ->
  exists p,
    In p (normalise parseFloat tasks)
    /\ Planned.id p = Raw.id t
    /\ Planned.lat p = Js.Num x
    /\ Planned.lng p = Js.Num y.
Proof.
  intros Hin Hlat Hlng.
  exists (withNumbers parseFloat t).
  split.
  - unfold normalise.
    apply (Permutation_in _ (Permutation_sym (sort_perm _ _))).
    apply filter_In. split.
    + apply mapWithNumbers_In. exists t. split; [| reflexivity].
      apply filter_In. split; [exact Hin |].
      unfold hasCoordinates. now rewrite Hlat, Hlng.
    + unfold coordinatesAreNumbers, withNumbers; simpl.
      now rewrite Hlat, Hlng.
  - unfold withNumbers; simpl. rewrite Hlat, Hlng. auto.
Qed.

End NormaliseFacts.

Lemma normalise_keeps_numeric_tasks_witness :
  let t := PlanFixture.raw "equator" (VNumber (Js.Num 0))
                           (VNumber (Js.Num 12)) (OrdNum 2) in
  exists p,
    In p (normalise PlanFixture.parseFloat
            [None; Some (PlanFixture.raw "s" (VString "30.5") VNull OrdAbsent);
             Some t])
    /\ Planned.id p = "equator"%string.
Proof.
  intro t.
  destruct (@normalise_keeps_numeric_tasks PlanFixture.parseFloat
              [None; Some (PlanFixture.raw "s" (VString "30.5") VNull OrdAbsent);
               Some t] t 0 12)
    as (p & Hin & Hid & _).
  - simpl. auto.
  - reflexivity.
  - reflexivity.
  - exists p. split; [exact Hin | exact Hid].
Defined.

(* ================================================================== *)
(** ** The order of the first scheduler *)
(* ================================================================== *)

Lemma after_byOrder (a b : Planned.t) (x y : Z) :
  orderNumber (Planned.order a) = Some x ->
  orderNumber (Planned.order b) = Some y ->
  Js.after byOrder a b = (y <? x)%Z.
Proof.
  intros Ha Hb. unfold Js.after, Js.SortCompare, byOrder.
  rewrite Ha, Hb. simpl. rewrite Qle_bool_inject_Z_0.
  destruct (Z.leb_spec (x - y) 0), (Z.ltb_spec y x); simpl; auto; lia.
Qed.

(** X19. When every task has an [order] (a number or null),
    [createSchedule] lists the tasks in non-decreasing [order], whatever
    the order in which they were passed. *)
Theorem createSchedule_follows_order
        (parse : string -> option Z) (tasks : list Planned.t)
        (currentLocation : LatLng) (currentTime : string) :
  (forall t, In t tasks -> orderNumber (Planned.order t) <> None) ->
  exists sorted,
    Permutation sorted tasks
    /\ StronglySorted orderLe sorted
    /\ map Slot.taskId
           (createSchedule parse tasks currentLocation currentTime)
       = map Planned.id sorted.
Proof.
  intro Hok. exists (Js.sort byOrder tasks).
  split; [apply sort_perm |].
  split; [| apply scheduleFrom_ids].
  apply sort_sorted
    with (P := fun t => orderNumber (Planned.order t) <> None).
  - intros a b c. unfold orderLe.
    destruct (orderNumber (Planned.order a)),
             (orderNumber (Planned.order b)),
             (orderNumber (Planned.order c)); try tauto; lia.
  - intros a b Ha Hb. unfold orderLe.
    destruct (orderNumber (Planned.order a)) as [x |] eqn:Ea; [| congruence].
    destruct (orderNumber (Planned.order b)) as [y |] eqn:Eb; [| congruence].
    rewrite (after_byOrder _ _ Ea Eb). intro H. apply Z.ltb_lt in H. lia.
  - intros a b Ha Hb. unfold orderLe.
    destruct (orderNumber (Planned.order a)) as [x |] eqn:Ea; [| congruence].
    destruct (orderNumber (Planned.order b)) as [y |] eqn:Eb; [| congruence].
    rewrite (after_byOrder _ _ Ea Eb). intro H. apply Z.ltb_ge in H. exact H.
  - rewrite Forall_forall. exact Hok.
Qed.

Lemma createSchedule_follows_order_witness :
  map Slot.taskId
      (createSchedule Fixture.parse
         [PlanFixture.planned "second" (OrdNum 2) 5 30 ByNull false;
          PlanFixture.planned "first" (OrdNum 1) 5 30 ByNull false]
         Fixture.origin "2026-02-14T08:00:00-06:00")
  = ["first"; "second"]%string.
Proof.
  destruct (createSchedule_follows_order Fixture.parse
              [PlanFixture.planned "second" (OrdNum 2) 5 30 ByNull false;
               PlanFixture.planned "first" (OrdNum 1) 5 30 ByNull false]
              Fixture.origin "2026-02-14T08:00:00-06:00")
    as (sorted & _ & _ & Hids).
  - intros t [<- | [<- | []]]; discriminate.
  - reflexivity.
Defined.

(** X20. From [planRouteFromText] to [createSchedule]: when every parsed
    task carries a numeric [order], the scheduler's own sort changes
    nothing, so the schedule lists the tasks exactly in the order in which
    [planRouteFromText] returned them. *)
Theorem createSchedule_keeps_planned_order
        (parse : string -> option Z) (parseFloat : JsVal -> Js.number)
        (tasks : list (option Raw.t))
        (currentLocation : LatLng) (currentTime : string) :
  (forall t, In (Some t) tasks -> exists n, Raw.order t = OrdNum n) ->
  createSchedule parse (normalise parseFloat tasks) currentLocation currentTime
  = scheduleFrom parse (Js.newDate (parse currentTime))
                 (normalise parseFloat tasks).
Proof.
  intro Hnum. unfold createSchedule. f_equal.
  apply sort_sorted_id.
  assert (Hall : Forall (fun p => exists n, Planned.order p = OrdNum n)
                        (normalise parseFloat tasks)).
  { unfold normalise. apply sort_Forall. rewrite Forall_forall.
    intros p Hp. apply filter_In in Hp. destruct Hp as [Hp _].
    apply mapWithNumbers_In in Hp. destruct Hp as (t & Ht & ->).
    apply filter_In in Ht. destruct Ht as [Ht _].
    exact (Hnum t Ht). }
  pose proof (normalise_sorted parseFloat tasks) as Hsorted.
  induction Hsorted as [| a l Hs IH Ha]; constructor.
  - apply IH. now inversion Hall.
  - inversion Hall as [| ? ? (na & Hna) Hl]; subst.
    rewrite Forall_forall in Ha, Hl. rewrite Forall_forall.
    intros b Hb. destruct (Hl b Hb) as (nb & Hnb).
    specialize (Ha b Hb). rewrite Hna, Hnb in Ha. simpl in Ha.
    rewrite (@after_byOrder a b na nb) by (rewrite ?Hna, ?Hnb; reflexivity).
    apply Z.ltb_ge. exact Ha.
Qed.

Lemma createSchedule_keeps_planned_order_witness :
  let tasks := [Some (PlanFixture.raw "b" (VNumber (Js.Num 1))
                                      (VNumber (Js.Num 2)) (OrdNum 2));
                Some (PlanFixture.raw "a" (VString "30.5")
                                      (VNumber (Js.Num 2)) (OrdNum 1))] in
  map Slot.taskId
      (createSchedule Fixture.parse
         (normalise PlanFixture.parseFloat tasks) Fixture.origin
         "2026-02-14T08:00:00-06:00")
  = map Planned.id (normalise PlanFixture.parseFloat tasks).
Proof.
  intro tasks.
  rewrite (createSchedule_keeps_planned_order Fixture.parse
             PlanFixture.parseFloat tasks Fixture.origin
             "2026-02-14T08:00:00-06:00").
  - apply scheduleFrom_ids.
  - intros t [H | [H | []]]; injection H as <-; eexists; reflexivity.
Defined.

(* ================================================================== *)
(** ** Resolving locations *)
(* ================================================================== *)

Section ResolveFacts.
Variable findWithPlacesAPI : string -> LatLng -> option Place.t.
Variable findWithGeocodingAPI : string -> LatLng -> option Place.t.
Variable stringIsNaN : string -> bool.

Local Abbreviation lookup :=
  (findNearbyPlace findWithPlacesAPI findWithGeocodingAPI).
Local Abbreviation valid := (hasValidCoordinates stringIsNaN).
Local Abbreviation each :=
  (resolveEach findWithPlacesAPI findWithGeocodingAPI stringIsNaN).

Lemma resolveEach_app (l1 l2 : list Errand.t) (userLocation : LatLng) :
  each (l1 ++ l2) userLocation
  = each l1 userLocation ++ each l2 userLocation.
Proof.
  induction l1 as [| task l1 IH]; [reflexivity |].
  simpl. destruct (valid task).
  - simpl. now rewrite IH.
  - destruct (lookup (Errand.location task) userLocation); simpl;
      now rewrite IH.
Qed.

(** X21. Every task [resolveLocations] returns comes from a task of the
    input: either that task unchanged, its own coordinates being valid, or
    that task with the name, address and coordinates of the place found
    for its location; its id, title, duration, deadline and fixed flag are
    never touched. *)
Theorem resolveLocations_returns_input_tasks
        (geocoderLoaded : bool) (tasks : list Errand.t)
        (userLocation : LatLng) (r : Errand.t) :
  In r (resolveLocations findWithPlacesAPI findWithGeocodingAPI stringIsNaN
                         geocoderLoaded tasks userLocation) ->
  exists task,
    In task tasks
    /\ Errand.id r = Errand.id task
    /\ Errand.title r = Errand.title task
    /\ Errand.durationMinutes r = Errand.durationMinutes task
    /\ Errand.mustArriveBy r = Errand.mustArriveBy task
    /\ Errand.fixedTime r = Errand.fixedTime task
    /\ ((valid task = true /\ r = task)
        \/ (valid task = false
            /\ exists place,
                 lookup (Errand.location task) userLocation = Some place
                 /\ r = withPlace task place)).
Proof.
  unfold resolveLocations.
  destruct geocoderLoaded; simpl; [| contradiction].
  induction tasks as [| task tasks IH]; simpl; [contradiction |].
  assert (Hrest :
            In r (each tasks userLocation) ->
            exists task0,
              In task0 (task :: tasks)
              /\ Errand.id r = Errand.id task0
              /\ Errand.title r = Errand.title task0
              /\ Errand.durationMinutes r = Errand.durationMinutes task0
              /\ Errand.mustArriveBy r = Errand.mustArriveBy task0
              /\ Errand.fixedTime r = Errand.fixedTime task0
              /\ ((valid task0 = true /\ r = task0)
                  \/ (valid task0 = false
                      /\ exists place,
                           lookup (Errand.location task0) userLocation
                           = Some place
                           /\ r = withPlace task0 place))).
  { intro H. destruct (IH H) as (t & Ht & Hrest). exists t.
    split; [now right | exact Hrest]. }
  destruct (valid task) eqn:Ev.
  - intros [<- | H]; [| now apply Hrest].
    exists task. split; [now left |].
    do 5 (split; [reflexivity |]). left. now split.
  - destruct (lookup (Errand.location task) userLocation) as [place |] eqn:El;
      [| exact Hrest].
    intros [<- | H]; [| now apply Hrest].
    exists task. split; [now left |].
    do 5 (split; [reflexivity |]). right. split; [exact Ev |].
    now exists place.
Qed.

(** X22. With the geocoder loaded, [resolveLocations] keeps the tasks in
    their order and drops exactly those that have no valid coordinates and
    for which both lookups fail; without the geocoder it returns
    nothing. *)
Theorem resolveLocations_keeps_order
        (geocoderLoaded : bool) (tasks : list Errand.t)
        (userLocation : LatLng) :
  map Errand.id
      (resolveLocations findWithPlacesAPI findWithGeocodingAPI stringIsNaN
                        geocoderLoaded tasks userLocation)
  = if geocoderLoaded
    then map Errand.id
             (filter (resolvable findWithPlacesAPI findWithGeocodingAPI
                                 stringIsNaN userLocation) tasks)
    else [].
Proof.
  unfold resolveLocations. destruct geocoderLoaded; simpl; [| reflexivity].
  induction tasks as [| task tasks IH]; [reflexivity |].
  simpl. unfold resolvable at 1.
  destruct (valid task); simpl; [now rewrite IH |].
  destruct (lookup (Errand.location task) userLocation); simpl;
    [now rewrite IH | exact IH].
Qed.

(** X23. A task whose latitude or longitude is the number zero counts as
    unresolved: when both lookups fail for its location it is dropped as
    if it were not in the list, although it has coordinates. *)
Theorem resolveLocations_drops_zero_coordinate
        (geocoderLoaded : bool) (before after : list Errand.t)
        (task : Errand.t) (userLocation : LatLng) :
  Errand.lat task = VNumber (Js.Num 0)
  \/ Errand.lng task = VNumber (Js.Num 0) ->
  lookup (Errand.location task) userLocation = None ->
  resolveLocations findWithPlacesAPI findWithGeocodingAPI stringIsNaN
                   geocoderLoaded (before ++ task :: after) userLocation
  = resolveLocations findWithPlacesAPI findWithGeocodingAPI stringIsNaN
                     geocoderLoaded (before ++ after) userLocation.
Proof.
  intros Hzero Hnone. unfold resolveLocations.
  destruct geocoderLoaded; simpl; [| reflexivity].
  rewrite !resolveEach_app. f_equal. simpl.
  assert (Hv : valid task = false).
  { unfold hasValidCoordinates.
    destruct Hzero as [-> | ->]; simpl;
      [reflexivity | now rewrite andb_false_r]. }
  now rewrite Hv, Hnone.
Qed.

(** X24. Resolving twice changes nothing, provided no lookup returns a
    place with a zero latitude or longitude: tasks that have been resolved
    pass through unchanged, without a new lookup. *)
Theorem resolveLocations_idempotent
        (geocoderLoaded : bool) (tasks : list Errand.t)
        (userLocation : LatLng) :
  (forall query place,
      lookup query userLocation = Some place ->
      ~ Place.lat place == 0 /\ ~ Place.lng place == 0) ->
  let once :=
    resolveLocations findWithPlacesAPI findWithGeocodingAPI stringIsNaN
                     geocoderLoaded tasks userLocation in
  resolveLocations findWithPlacesAPI findWithGeocodingAPI stringIsNaN
                   geocoderLoaded once userLocation
  = once.
Proof.
  intros Hplaces once. unfold once, resolveLocations.
  destruct geocoderLoaded; simpl; [| reflexivity].
  assert (Hfix : forall l,
             Forall (fun t => valid t = true) l -> each l userLocation = l).
  { induction 1 as [| t l Ht _ IH]; [reflexivity |].
    simpl. now rewrite Ht, IH. }
  apply Hfix.
  induction tasks as [| task tasks IH]; simpl; [constructor |].
  destruct (valid task) eqn:Ev; [now constructor |].
  destruct (lookup (Errand.location task) userLocation) as [place |] eqn:El;
    [| exact IH].
  constructor; [| exact IH].
  destruct (Hplaces _ _ El) as [Hlat Hlng].
  unfold hasValidCoordinates, withPlace; simpl.
  destruct (Qeq_bool (Place.lat place) 0) eqn:E1;
    [apply Qeq_bool_iff in E1; contradiction |].
  destruct (Qeq_bool (Place.lng place) 0) eqn:E2;
    [apply Qeq_bool_iff in E2; contradiction |].
  reflexivity.
Qed.

End ResolveFacts.

Lemma resolveLocations_returns_input_tasks_witness :
  let task := PlaceFixture.errand "t1" "HEB" VUndefined VUndefined in
  exists place,
    findNearbyPlace PlaceFixture.places PlaceFixture.geocoder "HEB"
                    Fixture.origin
    = Some place
    /\ In (withPlace task place)
          (resolveLocations PlaceFixture.places PlaceFixture.geocoder
                            PlaceFixture.stringIsNaN true [task]
                            Fixture.origin).
Proof.
  intro task.
  destruct (@resolveLocations_returns_input_tasks
              PlaceFixture.places PlaceFixture.geocoder
              PlaceFixture.stringIsNaN true [task] Fixture.origin
              (withPlace task
                 (Place.mk "H-E-B" "1900 Texas Ave" (306 # 10) (-963 # 10)
                           "p1")))
    as (t & _ & _).
  - left. reflexivity.
  - eexists. split; [reflexivity | left; reflexivity].
Defined.

Lemma resolveLocations_drops_zero_coordinate_witness :
  resolveLocations PlaceFixture.places PlaceFixture.geocoder
    PlaceFixture.stringIsNaN true
    ([] ++ PlaceFixture.errand "equator" "Quito" (VNumber (Js.Num 0))
                               (VNumber (Js.Num (-78)))
        :: [PlaceFixture.errand "t1" "HEB" VUndefined VUndefined])
    Fixture.origin
  = resolveLocations PlaceFixture.places PlaceFixture.geocoder
      PlaceFixture.stringIsNaN true
      ([] ++ [PlaceFixture.errand "t1" "HEB" VUndefined VUndefined])
      Fixture.origin.
Proof.
  apply (@resolveLocations_drops_zero_coordinate
           PlaceFixture.places PlaceFixture.geocoder
           PlaceFixture.stringIsNaN true []
           [PlaceFixture.errand "t1" "HEB" VUndefined VUndefined]
           (PlaceFixture.errand "equator" "Quito" (VNumber (Js.Num 0))
                                (VNumber (Js.Num (-78))))
           Fixture.origin).
  - left. reflexivity.
  - reflexivity.
Defined.

Lemma resolveLocations_idempotent_witness :
  let tasks := [PlaceFixture.errand "t1" "HEB" VUndefined VUndefined;
                PlaceFixture.errand "t2" "Nowhere" VUndefined VUndefined;
                PlaceFixture.errand "t3" "Evans Library" VNull VNull] in
  let once :=
    resolveLocations PlaceFixture.places PlaceFixture.geocoder
                     PlaceFixture.stringIsNaN true tasks Fixture.origin in
  resolveLocations PlaceFixture.places PlaceFixture.geocoder
                   PlaceFixture.stringIsNaN true once Fixture.origin
  = once.
Proof.
  intros tasks once.
  apply (@resolveLocations_idempotent
           PlaceFixture.places PlaceFixture.geocoder
           PlaceFixture.stringIsNaN true tasks Fixture.origin).
  intros query place.
  unfold findNearbyPlace, PlaceFixture.places, PlaceFixture.geocoder.
  destruct (String.eqb query "HEB").
  - intro H. injection H as <-. split; discriminate.
  - destruct (String.eqb query "Evans Library"); [| discriminate].
    intro H. injection H as <-. split; discriminate.
Defined.

(* ================================================================== *)
(** ** From the reply text to tasks *)
(* ================================================================== *)

Lemma app_eq_same_length {A : Type} (l1 l1' l2 l2' : list A) :
  l1 ++ l2 = l1' ++ l2' -> List.length l1 = List.length l1' ->
  l1 = l1' /\ l2 = l2'.
Proof.
  revert l1'. induction l1 as [| x l1 IH]; intros [| y l1'] Heq Hlen;
    try discriminate.
  - now split.
  - simpl in Heq. injection Heq as -> Heq. simpl in Hlen.
    destruct (IH l1' Heq) as [-> ->]; [lia | now split].
Qed.

Lemma extract_bracketed (pre mid post : text) :
  ~ In Char.lbracket pre -> ~ In Char.rbracket post ->
  extractCompleteJsonArray
    (pre ++ ([Char.lbracket] ++ mid ++ [Char.rbracket]) ++ post)
  = Some ([Char.lbracket] ++ mid ++ [Char.rbracket]).
Proof.
  intros Hpre Hpost.
  set (s := pre ++ ([Char.lbracket] ++ mid ++ [Char.rbracket]) ++ post).
  assert (Hs : s = pre ++ [Char.lbracket] ++ mid ++ [Char.rbracket] ++ post).
  { unfold s. simpl. now rewrite <- app_assoc. }
  pose proof (extract_span s) as H.
  destruct (extractCompleteJsonArray s) as [r |].
  2:{ exfalso. apply H. now exists pre, mid, post. }
  destruct H as (p' & m' & q' & Hs' & Hp' & Hq' & ->).
  f_equal. f_equal.
  assert (Hlen : List.length p' = List.length pre).
  { apply Nat.le_antisymm.
    - apply (first_occurrence_least Char.lbracket p'
               (m' ++ [Char.rbracket] ++ q') pre
               (mid ++ [Char.rbracket] ++ post)); [| exact Hp'].
      transitivity s; [symmetry; exact Hs' | exact Hs].
    - apply (first_occurrence_least Char.lbracket pre
               (mid ++ [Char.rbracket] ++ post) p'
               (m' ++ [Char.rbracket] ++ q')); [| exact Hpre].
      transitivity s; [symmetry; exact Hs | exact Hs']. }
  rewrite Hs in Hs'.
  destruct (app_eq_same_length _ _ _ _ Hs' (eq_sym Hlen)) as [_ Htail].
  simpl in Htail. injection Htail as Htail.
  assert (Hlen2 : List.length m' = List.length mid).
  { apply Nat.le_antisymm.
    - apply (last_occurrence_greatest Char.rbracket mid post m' q');
        [| exact Hpost]. exact Htail.
    - apply (last_occurrence_greatest Char.rbracket m' q' mid post);
        [| exact Hq']. symmetry. exact Htail. }
  destruct (app_eq_same_length _ _ _ _ Htail (eq_sym Hlen2)) as [-> _].
  reflexivity.
Qed.

(** X25. Whatever surrounds the outermost brackets of the reply is ignored:
    when the reply is a bracketed text with no opening bracket before it
    and no closing bracket behind it, the extracted tasks are those of the
    bracketed text alone, and so are the planned tasks whenever the
    bracketed text parses. *)
Theorem reply_surroundings_ignored
        (T : Type) (parseTasks : text -> option (Parsed (option T)))
        (parsePlan : text -> option (Parsed (option Raw.t)))
        (parseFloat : JsVal -> Js.number) (pre mid post : text) :
  ~ In Char.lbracket pre -> ~ In Char.rbracket post ->
  let array := [Char.lbracket] ++ mid ++ [Char.rbracket] in
  extractedTasks parseTasks (pre ++ array ++ post)
  = extractedTasks parseTasks array
  /\ (parsePlan array <> None ->
      plannedTasks parsePlan parseFloat (pre ++ array ++ post)
      = plannedTasks parsePlan parseFloat array).
Proof.
  intros Hpre Hpost array.
  assert (H1 : jsonTextOf (pre ++ array ++ post) = array).
  { unfold jsonTextOf, array. now rewrite extract_bracketed. }
  assert (H2 : jsonTextOf array = array).
  { unfold jsonTextOf, array.
    pose proof (@extract_bracketed [] mid []) as H.
    simpl in H. rewrite app_nil_r in H. simpl.
    rewrite H; [reflexivity | intros [] | intros []]. }
  split.
  - unfold extractedTasks. now rewrite H1, H2.
  - intro Hparses. unfold plannedTasks, plannedValue.
    rewrite H1, H2.
    destruct (parsePlan array); [reflexivity | congruence].
Qed.

Lemma reply_surroundings_ignored_witness :
  extractedTasks (@parseEmptyArray (option nat))
                 (codes "Here you go: [] Enjoy!")
  = extractedTasks (@parseEmptyArray (option nat)) (codes "[]").
Proof.
  apply (@reply_surroundings_ignored
           nat parseEmptyArray parseEmptyArray PlanFixture.parseFloat
           (codes "Here you go: ") [] (codes " Enjoy!")).
  - vm_compute. intuition discriminate.
  - vm_compute. intuition discriminate.
Defined.

Lemma extractCompleteJsonArray_widest_span_witness :
  exists pre mid post,
    codes "Sure: [1,[2]] bar] ."
    = pre ++ [Char.lbracket] ++ mid ++ [Char.rbracket] ++ post
    /\ codes "[1,[2]] bar]" = [Char.lbracket] ++ mid ++ [Char.rbracket].
Proof.
  destruct (proj1 (extractCompleteJsonArray_widest_span
                     (codes "Sure: [1,[2]] bar] ."))
                  (codes "[1,[2]] bar]") eq_refl)
    as (pre & mid & post & Hs & _ & _ & Hr).
  exists pre, mid, post. split; [exact Hs | exact Hr].
Defined.
